(** * The Twitter post client: scheduler, post generator, action pipeline

    A shallow embedding of [packages/client-twitter/src/post.ts]:
    the text helpers ([truncateToCompleteSentence], [trimTweetLength]),
    the content cleaning of [generateNewTweet] and [generateTweetContent],
    and the three asynchronous methods [generateNewTweetLoop],
    [generateNewTweet]/[sendTweet] and [processTweetActions] with
    [handleTextOnlyReply], written in a small completion monad over an
    explicit world (cache, memory store, guard flag, call history). *)

From Stdlib Require Import Ascii String ZArith QArith Qabs Qminmax Qround Lia.
From stdpp Require Import gmap strings list.

Local Open Scope Z_scope.

(* ===================================================================== *)
(** ** JavaScript strings *)
(* ===================================================================== *)

(** A JavaScript string is a sequence of UTF-16 code units. *)
Definition jsstring := list N.

(** An ASCII literal as a JavaScript string. *)
Definition str (s : string) : jsstring :=
  map N_of_ascii (list_ascii_of_string s).

Module Js.

(** [WhiteSpace] and [LineTerminator] code units: what [trim] and the
    regular expression class [\s] remove. *)
Definition isWhiteSpace (c : N) : bool :=
  ((9 <=? c) && (c <=? 13) || (c =? 32) || (c =? 160) || (c =? 5760)
   || (8192 <=? c) && (c <=? 8202) || (c =? 8232) || (c =? 8233)
   || (c =? 8239) || (c =? 8287) || (c =? 12288) || (c =? 65279))%N.

(** [LineTerminator]: the code units the regular expression [.] rejects. *)
Definition isLineTerminator (c : N) : bool :=
  ((c =? 10) || (c =? 13) || (c =? 8232) || (c =? 8233))%N.

Fixpoint trimStart (s : jsstring) : jsstring :=
  match s with
  | c :: r => if isWhiteSpace c then trimStart r else s
  | [] => []
  end.

Definition trimEnd (s : jsstring) : jsstring :=
  rev (trimStart (rev s)).

(** [s.trim()] *)
Definition trim (s : jsstring) : jsstring := trimStart (trimEnd s).

(** [s.slice(0, e)]: a negative [e] counts from the end. *)
Definition slice0 (s : jsstring) (e : Z) : jsstring :=
  let len := Z.of_nat (length s) in
  let to := if e <? 0 then Z.max (len + e) 0 else Z.min e len in
  take (Z.to_nat to) s.

(** The largest index [i <= k] with [s[i] = c], or [-1]. *)
Fixpoint lastIndexFrom (c : N) (s : jsstring) (k : nat) : Z :=
  match s !! k with
  | Some d =>
      if (d =? c)%N then Z.of_nat k
      else match k with O => -1 | S k' => lastIndexFrom c s k' end
  | None => match k with O => -1 | S k' => lastIndexFrom c s k' end
  end.

(** [s.lastIndexOf(c, pos)] for a one-unit search string: the start is
    [pos] clamped to [0 .. length - 1]. *)
Definition lastIndexOf (c : N) (s : jsstring) (pos : Z) : Z :=
  let len := Z.of_nat (length s) in
  if len =? 0 then -1
  else lastIndexFrom c s (Z.to_nat (Z.min (Z.max pos 0) (len - 1))).

(** [s.lastIndexOf(c)]: the position defaults to +infinity. *)
Definition lastIndexOfEnd (c : N) (s : jsstring) : Z :=
  lastIndexOf c s (Z.of_nat (length s)).

(** [s.replace(/ab/g, r)] for a two-unit literal [ab] with [a <> b]:
    every occurrence, left to right, without overlap. *)
Fixpoint replacePair (a b : N) (r : N) (s : jsstring) : jsstring :=
  match s with
  | x :: t =>
      match t with
      | y :: u =>
          if ((x =? a) && (y =? b))%N then r :: replacePair a b r u
          else x :: replacePair a b r t
      | [] => [x]
      end
  | [] => []
  end.

Fixpoint startsWith (p s : jsstring) : option jsstring :=
  match p with
  | [] => Some s
  | a :: p' =>
      match s with
      | c :: s' => if (a =? c)%N then startsWith p' s' else None
      | [] => None
      end
  end.

End Js.

Definition period : N := 46.
Definition space : N := 32.
Definition ellipsis : jsstring := str "...".

(** [truncateToCompleteSentence(text, maxTweetLength)] *)
Definition truncateToCompleteSentence (text : jsstring) (maxTweetLength : Z)
  : jsstring :=
  if Z.of_nat (length text) <=? maxTweetLength then text
  else
    let truncatedAtPeriod :=
      Js.slice0 text (Js.lastIndexOf period text maxTweetLength + 1) in
    if (0 <? length (Js.trim truncatedAtPeriod))%nat
    then Js.trim truncatedAtPeriod
    else
      let truncatedAtSpace :=
        Js.slice0 text (Js.lastIndexOf space text maxTweetLength) in
      if (0 <? length (Js.trim truncatedAtSpace))%nat
      then Js.trim truncatedAtSpace ++ ellipsis
      else Js.trim (Js.slice0 text (maxTweetLength - 3)) ++ ellipsis.

(** [trimTweetLength(text, maxLength = 280)] *)
Definition trimTweetLength (text : jsstring) (maxLength : Z) : jsstring :=
  if Z.of_nat (length text) <=? maxLength then text
  else
    let lastSentence := Js.lastIndexOfEnd period (Js.slice0 text maxLength) in
    if 0 <? lastSentence
    then Js.trim (Js.slice0 text (lastSentence + 1))
    else Js.trim (Js.slice0 text (Js.lastIndexOf space text (maxLength - 3)))
         ++ ellipsis.

(* ===================================================================== *)
(** ** JSON values and [JSON.parse] *)
(* ===================================================================== *)

(** The values [JSON.parse] produces. An object keeps its members in
    source order; a later duplicate key shadows an earlier one. *)
#[warnings="-register-all"]
Inductive json : Type :=
| JNull
| JBool (b : bool)
| JNumber (q : Q)
| JString (s : jsstring)
| JArray (l : list json)
| JObject (m : list (jsstring * json)).

Module Json.

Definition quote : N := 34.
Definition backslash : N := 92.

Definition isWs (c : N) : bool :=
  ((c =? 32) || (c =? 9) || (c =? 10) || (c =? 13))%N.

Fixpoint skipWs (s : jsstring) : jsstring :=
  match s with
  | c :: r => if isWs c then skipWs r else s
  | [] => []
  end.

Definition isDigit (c : N) : bool := ((48 <=? c) && (c <=? 57))%N.

Definition hexVal (c : N) : option N :=
  if isDigit c then Some (c - 48)%N
  else if ((97 <=? c) && (c <=? 102))%N then Some (c - 87)%N
  else if ((65 <=? c) && (c <=? 70))%N then Some (c - 55)%N
  else None.

(** The one-letter escapes: quote, backslash, slash, b, f, n, r, t. *)
Definition escapeOf (c : N) : option N :=
  if (c =? 34)%N then Some 34%N
  else if (c =? 92)%N then Some 92%N
  else if (c =? 47)%N then Some 47%N
  else if (c =? 98)%N then Some 8%N
  else if (c =? 102)%N then Some 12%N
  else if (c =? 110)%N then Some 10%N
  else if (c =? 114)%N then Some 13%N
  else if (c =? 116)%N then Some 9%N
  else None.

Definition hex4 (a b c d : N) : option N :=
  match hexVal a, hexVal b, hexVal c, hexVal d with
  | Some x, Some y, Some z, Some w => Some (((x * 16 + y) * 16 + z) * 16 + w)%N
  | _, _, _, _ => None
  end.

(** The characters of a string literal after its opening quote. *)
Fixpoint parseChars (s acc : jsstring) : option (jsstring * jsstring) :=
  match s with
  | [] => None
  | c :: r =>
      if (c =? quote)%N then Some (rev acc, r)
      else if (c =? backslash)%N then
        match r with
        | e :: r1 =>
            if (e =? 117)%N then
              match r1 with
              | h1 :: h2 :: h3 :: h4 :: r2 =>
                  match hex4 h1 h2 h3 h4 with
                  | Some u => parseChars r2 (u :: acc)
                  | None => None
                  end
              | _ => None
              end
            else
              match escapeOf e with
              | Some u => parseChars r1 (u :: acc)
              | None => None
              end
        | [] => None
        end
      else if (c <? 32)%N then None
      else parseChars r (c :: acc)
  end.

Fixpoint takeDigits (s : jsstring) : jsstring * jsstring :=
  match s with
  | c :: r =>
      if isDigit c then let '(d, r') := takeDigits r in (c :: d, r')
      else ([], s)
  | [] => ([], [])
  end.

Definition digitsValue (d : jsstring) : Z :=
  fold_left (fun a c => 10 * a + Z.of_N (c - 48)) d 0.

Definition pow10 (e : Z) : Q :=
  if 0 <=? e then inject_Z (10 ^ e) else Qinv (inject_Z (10 ^ (- e))).

Definition expect (c : N) (s : jsstring) : option jsstring :=
  match s with
  | x :: r => if (x =? c)%N then Some r else None
  | [] => None
  end.

(** A number literal (optional minus; 0 or a nonzero digit and more
    digits; optional fraction; optional exponent) with its exact
    rational value. *)
Definition parseNumber (s : jsstring) : option (Q * jsstring) :=
  let '(neg, s1) :=
    match expect 45 s with Some r => (true, r) | None => (false, s) end in
  let '(ip, s2) := takeDigits s1 in
  match ip with
  | [] => None
  | d0 :: more =>
      if (d0 =? 48)%N && negb (Nat.eqb (length more) 0) then None
      else
        let frac :=
          match expect 46 s2 with
          | Some r =>
              let '(fp, r') := takeDigits r in
              match fp with [] => None | _ => Some (fp, r') end
          | None => Some ([], s2)
          end in
        match frac with
        | None => None
        | Some (fp, s3) =>
            let ex :=
              match s3 with
              | e :: r =>
                  if ((e =? 101) || (e =? 69))%N then
                    let '(eneg, r1) :=
                      match r with
                      | sg :: r' =>
                          if (sg =? 45)%N then (true, r')
                          else if (sg =? 43)%N then (false, r')
                          else (false, r)
                      | [] => (false, r)
                      end in
                    let '(ed, r2) := takeDigits r1 in
                    match ed with
                    | [] => None
                    | _ => Some ((if eneg then - digitsValue ed
                                  else digitsValue ed), r2)
                    end
                  else Some (0, s3)
              | [] => Some (0, s3)
              end in
            match ex with
            | None => None
            | Some (e, s4) =>
                let mant := digitsValue (ip ++ fp) in
                let v := Qmult (inject_Z (if neg then - mant else mant))
                               (pow10 (e - Z.of_nat (length fp))) in
                Some (v, s4)
            end
        end
  end.

Fixpoint parseValue (fuel : nat) (s : jsstring) : option (json * jsstring) :=
  match fuel with
  | O => None
  | S f =>
      match skipWs s with
      | [] => None
      | c :: r =>
          if (c =? 123)%N then
            match expect 125 (skipWs r) with
            | Some r' => Some (JObject [], r')
            | None => parseMembers f r []
            end
          else if (c =? 91)%N then
            match expect 93 (skipWs r) with
            | Some r' => Some (JArray [], r')
            | None => parseElements f r []
            end
          else if (c =? quote)%N then
            match parseChars r [] with
            | Some (x, r') => Some (JString x, r')
            | None => None
            end
          else
            match Js.startsWith (str "true") (c :: r) with
            | Some r' => Some (JBool true, r')
            | None =>
                match Js.startsWith (str "false") (c :: r) with
                | Some r' => Some (JBool false, r')
                | None =>
                    match Js.startsWith (str "null") (c :: r) with
                    | Some r' => Some (JNull, r')
                    | None =>
                        match parseNumber (c :: r) with
                        | Some (q, r') => Some (JNumber q, r')
                        | None => None
                        end
                    end
                end
            end
      end
  end
with parseElements (fuel : nat) (s : jsstring) (acc : list json)
  : option (json * jsstring) :=
  match fuel with
  | O => None
  | S f =>
      match parseValue f s with
      | Some (v, r) =>
          match expect 44 (skipWs r) with
          | Some r' => parseElements f r' (v :: acc)
          | None =>
              match expect 93 (skipWs r) with
              | Some r' => Some (JArray (rev (v :: acc)), r')
              | None => None
              end
          end
      | None => None
      end
  end
with parseMembers (fuel : nat) (s : jsstring) (acc : list (jsstring * json))
  : option (json * jsstring) :=
  match fuel with
  | O => None
  | S f =>
      match expect quote (skipWs s) with
      | Some r =>
          match parseChars r [] with
          | Some (k, r1) =>
              match expect 58 (skipWs r1) with
              | Some r2 =>
                  match parseValue f r2 with
                  | Some (v, r3) =>
                      match expect 44 (skipWs r3) with
                      | Some r4 => parseMembers f r4 ((k, v) :: acc)
                      | None =>
                          match expect 125 (skipWs r3) with
                          | Some r4 => Some (JObject (rev ((k, v) :: acc)), r4)
                          | None => None
                          end
                      end
                  | None => None
                  end
              | None => None
              end
          | None => None
          end
      | None => None
      end
  end.

(** [JSON.parse(text)]: [None] is the [SyntaxError]. Every step of the
    descent consumes input at least every second call, so twice the
    length is fuel enough. *)
Definition parse (text : jsstring) : option json :=
  match parseValue (2 * length text + 2) text with
  | Some (v, r) => match skipWs r with [] => Some v | _ => None end
  | None => None
  end.

Definition jsstring_eqb (a b : jsstring) : bool :=
  bool_decide (a = b).

(** [v.k] for a non-null [v] and a key that no prototype defines:
    [None] is [undefined]. *)
Definition getMember (v : json) (k : jsstring) : option json :=
  match v with
  | JObject m =>
      match filter (fun kv => Is_true (jsstring_eqb (fst kv) k)) (rev m) with
      | kv :: _ => Some (snd kv)
      | [] => None
      end
  | _ => None
  end.

(** ToBoolean. A number is zero when it rounds to the double 0, that is
    when its magnitude is at most half the least subnormal, 2^-1075. *)
Definition truthy (v : json) : bool :=
  match v with
  | JNull => false
  | JBool b => b
  | JNumber q => negb (Qle_bool (Qabs q) (1 # (2 ^ 1075)))
  | JString s => negb (Nat.eqb (length s) 0)
  | JArray _ | JObject _ => true
  end.

Definition truthyOpt (o : option json) : bool :=
  match o with Some v => truthy v | None => false end.

End Json.

(* ===================================================================== *)
(** ** Cleaning the model's response *)
(* ===================================================================== *)

Definition textKey : jsstring := str "text".

Module Clean.

Import Js Json.

(** The first alternative of the wrapper pattern, anchored at the start:
    spaces, an optional brace, spaces, the quoted key [text] and a colon,
    spaces, an opening quote. The classes are disjoint, so the greedy
    match is the only one. *)
Definition matchWrapperHead (s : jsstring) : option jsstring :=
  let s1 := trimStart s in
  let s2 := match expect 123 s1 with Some r => r | None => s1 end in
  match startsWith (quote :: textKey ++ [quote; 58%N]) (trimStart s2) with
  | Some s3 => expect quote (trimStart s3)
  | None => None
  end.

(** The second alternative, anchored at the end: a quote, spaces, an
    optional brace, spaces. It can only match at the last quote. *)
Definition stripWrapperTail (s : jsstring) : jsstring :=
  let r1 := trimStart (rev s) in
  let r2 := match expect 125 r1 with Some r => r | None => r1 end in
  match expect quote (trimStart r2) with
  | Some r3 => rev r3
  | None => s
  end.

(** The replace that removes the JSON-like wrapper: both alternatives of
    its pattern, each of which can match once. *)
Definition stripWrapper (s : jsstring) : jsstring :=
  stripWrapperTail
    (match matchWrapperHead s with Some r => r | None => s end).

Definition isQuoteMark (c : N) : bool := ((c =? 34) || (c =? 39))%N.

(** The replace that removes surrounding quotes: a first and a last
    quote mark (single or double) around a middle without line
    terminators, which the dot of the pattern rejects. *)
Definition removeQuotes (s : jsstring) : jsstring :=
  match s with
  | a :: r =>
      match rev r with
      | z :: m =>
          if isQuoteMark a && isQuoteMark z
             && forallb (fun c => negb (isLineTerminator c)) m
          then rev m else s
      | [] => s
      end
  | [] => s
  end.

(** The replace that turns each escaped double quote into a quote. *)
Definition unescapeQuotes (s : jsstring) : jsstring :=
  replacePair backslash quote quote s.

(** The replace that turns each backslash-n into a line feed; also the
    helper [fixNewLines]. *)
Definition fixNewLines (s : jsstring) : jsstring :=
  replacePair backslash 110 10 s.

(** The [catch] branch of the content cleaning in [generateNewTweet]. *)
Definition cleanRaw (newTweetContent : jsstring) : jsstring :=
  trim (fixNewLines (unescapeQuotes (removeQuotes (stripWrapper newTweetContent)))).

(** The content cleaning of [generateNewTweet]: [JSON.parse], then the
    [text] member or the parsed string; a [SyntaxError], or the
    [TypeError] of reading [null.text], leads to [cleanRaw]. The result
    is any JSON value: the [text] member need not be a string. *)
Definition extractContent (newTweetContent : jsstring) : json :=
  match parse newTweetContent with
  | None | Some JNull => JString (cleanRaw newTweetContent)
  | Some parsedResponse =>
      if truthyOpt (getMember parsedResponse textKey)
      then match getMember parsedResponse textKey with
           | Some t => t
           | None => JString []
           end
      else match parsedResponse with
           | JString p => JString p
           | _ => JString []
           end
  end.

(** A global replace by the empty string of a literal [fence] followed by
    spaces: every occurrence, left to right, with the spaces after it. *)
Fixpoint removeFence (fence : jsstring) (fuel : nat) (s : jsstring)
  : jsstring :=
  match fuel with
  | O => s
  | S f =>
      match s with
      | [] => []
      | c :: r =>
          match startsWith fence s with
          | Some rest => removeFence fence f (trimStart rest)
          | None => c :: removeFence fence f r
          end
      end
  end.

Definition fence : jsstring := [96; 96; 96]%N.

(** The first cleaning of [generateTweetContent]. *)
Definition cleanResponse (response : jsstring) : jsstring :=
  let s1 := removeFence (fence ++ str "json") (length response) response in
  let s2 := removeFence fence (length s1) s1 in
  trim (fixNewLines s2).

End Clean.

(* ===================================================================== *)
(** ** Data model *)
(* ===================================================================== *)

(** A candidate item, with the fields the client reads. [quotedStatusId]
    is [None] when absent or empty. *)
Record Tweet : Type := {
  tweet_id : string;
  tweet_name : string;
  tweet_username : string;
  tweet_userId : string;
  tweet_text : jsstring;
  tweet_conversationId : string;
  tweet_timestamp : Z;
  tweet_permanentUrl : string;
  tweet_photos : list string;
  tweet_quotedStatusId : option string
}.

(** The decision of [generateTweetActions]. *)
Record ActionResponse : Type := {
  like : bool;
  retweet : bool;
  quote : bool;
  reply : bool
}.

(** The labels pushed onto [executedActions]. *)
Inductive ActionLabel : Type := Like | Retweet | Quote | Reply.

Definition label (a : ActionLabel) : string :=
  match a with
  | Like => "like"
  | Retweet => "retweet"
  | Quote => "quote"
  | Reply => "reply"
  end.

(** [executedActions.join(",")] *)
Definition joinLabels (l : list ActionLabel) : string :=
  String.concat "," (map label l).

(** A record of the message manager. [mem_action] is absent on the record
    of the agent's own post. *)
Record Memory : Type := {
  mem_id : string;
  mem_userId : string;
  mem_agentId : string;
  mem_roomId : string;
  mem_text : jsstring;
  mem_url : string;
  mem_source : string;
  mem_action : option string;
  mem_createdAt : Z
}.

(** The schedule written under [nextTweetTime]. *)
Record ScheduleState : Type := {
  timestamp : Z;
  scheduledAt : Z;
  intervalMinutes : Z;
  lastExecutionDuration : option Z
}.

(** What the client stores in the cache. *)
Inductive CacheValue : Type :=
| CVLastPost (id : option string) (timestamp : Z)
| CVSchedule (s : ScheduleState)
| CVText (context : json).

(** One entry of the list [processTweetActions] returns. *)
Record ResultEntry : Type := {
  tweetId : string;
  parsedActions : ActionResponse;
  executedActions : list ActionLabel
}.

(** What [processTweetActions] resolves to: [null] at the guard, the
    results, or [undefined] after a bare [return]. *)
Inductive PipelineResult : Type :=
| RNull
| RResults (results : list ResultEntry)
| RUndefined.

Inductive ModelProviderName : Type :=
| HEURIST
| OtherProvider (name : string).

(** The part of a send response the client reads:
    [body.data.create_tweet.tweet_results.result]. *)
Record Legacy : Type := {
  full_text : jsstring;
  conversation_id_str : string;
  created_at : Z
}.

Record TweetResult : Type := {
  rest_id : string;
  legacy : option Legacy
}.

(** The result of the image handler: [undefined], or [success] with an
    optional non-empty [data]. *)
Record ImageResult : Type := {
  success : bool;
  data : option string
}.

(** Calls to the collaborators, as they are recorded in the history. *)
Inductive Call : Type :=
| EnsureUserExists (userId : string)
| EnsureRoomExists (roomId : string)
| EnsureParticipantInRoom (roomId : string)
| ComposeState
| GenerateText
| GenerateTweetActions (tweetId : string)
| FetchTimelineForActions (count : Z)
| GetMemoryById (id : string)
| CreateMemory (id : string)
| CacheGet (key : string)
| CacheSet (key : string)
| CacheTweet (tweetId : string)
| LikeTweet (tweetId : string)
| RetweetCall (tweetId : string)
| SendTweet (content : json) (replyTo : option string) (withMedia : bool)
| SendQuoteTweet (content : json) (tweetId : string)
| ResultJson
| GetTweet (tweetId : string)
| BuildConversationThread (tweetId : string)
| DescribeImage (url : string)
| ImageHandler
| ImageToBuffer
| DateNow
| MathRandom.

Inductive Error : Type :=
| TypeError
| Rejected (c : Call).

(** The mutable state the client reads and writes: its own fields, the
    stores behind the runtime, the [executedActions] array of the item
    being processed, and the calls made so far (newest first). *)
Record World : Type := {
  isProcessing : bool;
  lastProcessTime : Z;
  modelProvider : ModelProviderName;
  memories : gmap string Memory;
  cache : gmap string CacheValue;
  tweetCache : list string;
  executed : list ActionLabel;
  history : list Call
}.

(** Configuration and collaborators. Every answer of a collaborator may
    depend on all calls made so far, the current one included. *)
Record Env : Type := {
  agentId : string;
  TWITTER_USERNAME : string;
  profileUsername : string;
  stringToUuid : string -> string;
  (** [getSetting("IMAGE_GEN")] *)
  IMAGE_GEN : option string;
  (** [parseFloat(rawChance.replace(...)) || 30] *)
  imageGenChancePercent : Q;
  (** [parseInt] of the settings; [None] is [NaN]. *)
  POST_INTERVAL_MIN : option Z;
  POST_INTERVAL_MAX : option Z;
  MAX_TWEET_LENGTH : option Z;
  (** The constant of [environment.ts]. *)
  DEFAULT_MAX_TWEET_LENGTH : Z;
  (** [getSetting("TWITTER_DRY_RUN") === "true"] *)
  TWITTER_DRY_RUN : bool;
  (** The [imageGeneration] plugin is present with a handler. *)
  imageActionHandler : bool;
  (** The call rejects. *)
  rejects : list Call -> bool;
  clock : list Call -> Z;
  random : list Call -> Q;
  timeline : list Call -> list Tweet;
  decision : list Call -> option ActionResponse;
  modelText : list Call -> jsstring;
  responseBody : list Call -> option TweetResult;
  imageResult : list Call -> option ImageResult;
  (** [v <= n] for a [length] member that is not a number. *)
  looseLe : json -> Z -> bool
}.

(* ===================================================================== *)
(** ** Completions *)
(* ===================================================================== *)

(** How a block of statements ends: normally with a value, by [return],
    or by a thrown error. *)
Inductive Completion (R A : Type) : Type :=
| Normal (a : A)
| Return (r : R)
| Throw (e : Error).

Arguments Normal {R A} a.
Arguments Return {R A} r.
Arguments Throw {R A} e.

(** A block inside a function that returns [R]. *)
Definition M (R A : Type) : Type := World -> Completion R A * World.

Definition ret {R A} (a : A) : M R A := fun w => (Normal a, w).

Definition bind {R A B} (m : M R A) (k : A -> M R B) : M R B :=
  fun w =>
    match m w with
    | (Normal a, w') => k a w'
    | (Return r, w') => (Return r, w')
    | (Throw e, w') => (Throw e, w')
    end.

Definition return_ {R A} (r : R) : M R A := fun w => (Return r, w).

Definition throw {R A} (e : Error) : M R A := fun w => (Throw e, w).

Definition gets {R A} (f : World -> A) : M R A := fun w => (Normal (f w), w).

Definition modify {R} (f : World -> World) : M R unit :=
  fun w => (Normal tt, f w).

(** [try { body } catch (e) { handler }] *)
Definition try_catch {R A} (body : M R A) (handler : Error -> M R A) : M R A :=
  fun w =>
    match body w with
    | (Throw e, w') => handler e w'
    | other => other
    end.

(** [try { body } finally { fin }] for a [fin] that completes normally. *)
Definition try_finally {R A} (body : M R A) (fin : World -> World) : M R A :=
  fun w => let '(c, w') := body w in (c, fin w').

(** Awaiting a call of a function with body [body]: its [return] value,
    or [undef] when the body runs to its end. *)
Definition invoke {R R'} (undef : R') (body : M R' unit) : M R R' :=
  fun w =>
    match body w with
    | (Normal _, w') => (Normal undef, w')
    | (Return r, w') => (Normal r, w')
    | (Throw e, w') => (Throw e, w')
    end.

Declare Scope comp_scope.
Delimit Scope comp_scope with comp.
Notation "'let*' x ':=' m 'in' k" := (bind m (fun x => k))
  (at level 10, x name, m at level 100, k at level 200) : comp_scope.
Notation "m ;; k" := (bind m (fun _ => k))
  (at level 100, k at level 200, right associativity, only parsing)
  : comp_scope.

Local Open Scope comp_scope.

(* ===================================================================== *)
(** ** The client *)
(* ===================================================================== *)

Definition setIsProcessing (b : bool) (w : World) : World :=
  {| isProcessing := b; lastProcessTime := lastProcessTime w;
     modelProvider := modelProvider w; memories := memories w;
     cache := cache w; tweetCache := tweetCache w; executed := executed w;
     history := history w |}.

Definition setLastProcessTime (t : Z) (w : World) : World :=
  {| isProcessing := isProcessing w; lastProcessTime := t;
     modelProvider := modelProvider w; memories := memories w;
     cache := cache w; tweetCache := tweetCache w; executed := executed w;
     history := history w |}.

Definition setModelProvider (p : ModelProviderName) (w : World) : World :=
  {| isProcessing := isProcessing w; lastProcessTime := lastProcessTime w;
     modelProvider := p; memories := memories w;
     cache := cache w; tweetCache := tweetCache w; executed := executed w;
     history := history w |}.

Definition setMemories (m : gmap string Memory) (w : World) : World :=
  {| isProcessing := isProcessing w; lastProcessTime := lastProcessTime w;
     modelProvider := modelProvider w; memories := m;
     cache := cache w; tweetCache := tweetCache w; executed := executed w;
     history := history w |}.

Definition setCache (c : gmap string CacheValue) (w : World) : World :=
  {| isProcessing := isProcessing w; lastProcessTime := lastProcessTime w;
     modelProvider := modelProvider w; memories := memories w;
     cache := c; tweetCache := tweetCache w; executed := executed w;
     history := history w |}.

Definition setTweetCache (c : list string) (w : World) : World :=
  {| isProcessing := isProcessing w; lastProcessTime := lastProcessTime w;
     modelProvider := modelProvider w; memories := memories w;
     cache := cache w; tweetCache := c; executed := executed w;
     history := history w |}.

Definition setExecuted (l : list ActionLabel) (w : World) : World :=
  {| isProcessing := isProcessing w; lastProcessTime := lastProcessTime w;
     modelProvider := modelProvider w; memories := memories w;
     cache := cache w; tweetCache := tweetCache w; executed := l;
     history := history w |}.

Definition setHistory (h : list Call) (w : World) : World :=
  {| isProcessing := isProcessing w; lastProcessTime := lastProcessTime w;
     modelProvider := modelProvider w; memories := memories w;
     cache := cache w; tweetCache := tweetCache w; executed := executed w;
     history := h |}.

(** [parseInt(setting) || dflt] *)
Definition orDefault (parsed : option Z) (dflt : Z) : Z :=
  match parsed with
  | Some n => if n =? 0 then dflt else n
  | None => dflt
  end.

Definition Qlt_bool (a b : Q) : bool := negb (Qle_bool b a).

(** [lastPost?.timestamp ?? 0] *)
Definition lastPostTimestampOf (lastPost : option CacheValue) : Z :=
  match lastPost with
  | Some (CVLastPost _ t) => t
  | _ => 0
  end.

Definition lowerAscii (c : ascii) : ascii :=
  let n := nat_of_ascii c in
  if ((65 <=? n) && (n <=? 90))%nat then ascii_of_nat (n + 32) else c.

Fixpoint toLowerCase (s : string) : string :=
  match s with
  | EmptyString => EmptyString
  | String c r => String (lowerAscii c) (toLowerCase r)
  end.

Section Client.

Variable env : Env.

(** A call to a collaborator: it is recorded, then it rejects or
    resolves; the result is the history its answer may depend on. *)
Definition request {R} (c : Call) : M R (list Call) :=
  fun w =>
    let h := c :: history w in
    if rejects env h then (Throw (Rejected c), setHistory h w)
    else (Normal h, setHistory h w).

Definition now {R} : M R Z :=
  fun w =>
    let h := DateNow :: history w in (Normal (clock env h), setHistory h w).

Definition mathRandom {R} : M R Q :=
  fun w =>
    let h := MathRandom :: history w in
    (Normal (random env h), setHistory h w).

Definition cacheSet {R} (key : string) (v : CacheValue) : M R unit :=
  request (CacheSet key) ;;
  modify (fun w => setCache (<[key := v]> (cache w)) w).

Definition cacheGet {R} (key : string) : M R (option CacheValue) :=
  request (CacheGet key) ;;
  gets (fun w => cache w !! key).

Definition getMemoryById {R} (id : string) : M R (option Memory) :=
  request (GetMemoryById id) ;;
  gets (fun w => memories w !! id).

Definition createMemory {R} (m : Memory) : M R unit :=
  request (CreateMemory (mem_id m)) ;;
  modify (fun w => setMemories (<[mem_id m := m]> (memories w)) w).

Definition cacheTweet {R} (id : string) : M R unit :=
  request (CacheTweet id) ;;
  modify (fun w => setTweetCache (id :: tweetCache w) w).

Definition push {R} (a : ActionLabel) : M R unit :=
  modify (fun w => setExecuted (executed w ++ [a]) w).

Definition lastPostKey (username : string) : string :=
  "twitter/" +:+ username +:+ "/lastPost".

Definition nextTweetTimeKey : string :=
  "twitter/" +:+ TWITTER_USERNAME env +:+ "/nextTweetTime".

Definition hasResult (body : option TweetResult) : bool :=
  match body with Some _ => true | None => false end.

(** [sendTweet(cleanedContent, newTweetContent, roomId)] *)
Definition sendTweet (cleanedContent newTweetContent : jsstring)
    (roomId : string) : M unit unit :=
  request (SendTweet (JString cleanedContent) None false) ;;
  let* h := request ResultJson in
  match responseBody env h with
  | None => return_ tt
  | Some tweetResult =>
      match legacy tweetResult with
      | None => throw TypeError
      | Some lg =>
          let id := rest_id tweetResult in
          let permanentUrl :=
            "https://twitter.com/" +:+ TWITTER_USERNAME env
              +:+ "/status/" +:+ id in
          let* t := now in
          cacheSet (lastPostKey (profileUsername env))
                   (CVLastPost (Some id) t) ;;
          cacheTweet id ;;
          request (EnsureRoomExists roomId) ;;
          request (EnsureParticipantInRoom roomId) ;;
          createMemory
            {| mem_id := stringToUuid env (id +:+ "-" +:+ agentId env);
               mem_userId := agentId env;
               mem_agentId := agentId env;
               mem_roomId := roomId;
               mem_text := Js.trim newTweetContent;
               mem_url := permanentUrl;
               mem_source := "twitter";
               mem_action := None;
               mem_createdAt := created_at lg |}
      end
  end.

Definition maxTweetLength : Z :=
  orDefault (MAX_TWEET_LENGTH env) (DEFAULT_MAX_TWEET_LENGTH env).

(** [Math.random() < Math.max(0, Math.min(100, chance)) / 100] *)
Definition drawImage (r : Q) : bool :=
  Qlt_bool r (Qdiv (Qmax 0 (Qmin 100 (imageGenChancePercent env))) 100).

(** The image branch of [generateNewTweet], inside its own [try]. *)
Definition postWithImage (content cleanedContent newTweetContent : jsstring)
    (roomId : string) : M unit unit :=
  try_catch
    (if negb (imageActionHandler env) then return_ tt
     else
       let* originalProvider := gets modelProvider in
       modify (setModelProvider HEURIST) ;;
       try_catch
         (request ComposeState ;;
          let* h := request ImageHandler in
          modify (setModelProvider originalProvider) ;;
          match imageResult env h with
          | Some {| success := true; data := Some _ |} =>
              request ImageToBuffer ;;
              request (SendTweet (JString content) None true) ;;
              ret tt
          | _ =>
              invoke tt (sendTweet cleanedContent newTweetContent roomId)
          end)
         (fun e => modify (setModelProvider originalProvider) ;; throw e))
    (fun _ => invoke tt (sendTweet cleanedContent newTweetContent roomId)).

(** [generateNewTweet()] *)
Definition generateNewTweet : M unit unit :=
  let* generateImage :=
    match IMAGE_GEN env with
    | Some s => ret (bool_decide (toLowerCase s = "true"))
    | None => throw TypeError
    end in
  let* r := mathRandom in
  let shouldGenerateImage := drawImage r in
  try_catch
    (let roomId :=
       stringToUuid env ("twitter_generate_room-" +:+ profileUsername env) in
     request (EnsureUserExists (agentId env)) ;;
     request ComposeState ;;
     let* h := request GenerateText in
     let newTweetContent := modelText env h in
     let cleaned := Clean.extractContent newTweetContent in
     if negb (Json.truthy cleaned) then return_ tt
     else
       match cleaned with
       | JString c =>
           let content := truncateToCompleteSentence c maxTweetLength in
           let cleanedContent :=
             Clean.removeQuotes (Clean.fixNewLines content) in
           if TWITTER_DRY_RUN env then return_ tt
           else
             try_catch
               ((if generateImage && shouldGenerateImage
                 then postWithImage content cleanedContent newTweetContent
                                    roomId
                 else invoke tt
                        (sendTweet cleanedContent newTweetContent roomId)) ;;
                let* t := now in
                cacheSet (lastPostKey (TWITTER_USERNAME env))
                         (CVLastPost None t))
               (fun _ => ret tt)
       | _ => throw TypeError
       end)
    (fun _ => ret tt).

(** [Math.floor(Math.random() * (max - min + 1)) + min] *)
Definition randomMinutesOf (r : Q) (minMinutes maxMinutes : Z) : Z :=
  Qfloor (Qmult r (inject_Z (maxMinutes - minMinutes + 1))) + minMinutes.

(** The [try] block of [generateNewTweetLoop]. *)
Definition generateNewTweetLoopBody : M unit unit :=
  let* lastPost := cacheGet (lastPostKey (TWITTER_USERNAME env)) in
  let lastPostTimestamp := lastPostTimestampOf lastPost in
  let minMinutes := orDefault (POST_INTERVAL_MIN env) 90 in
  let maxMinutes := orDefault (POST_INTERVAL_MAX env) 180 in
  let* r := mathRandom in
  let randomMinutes := randomMinutesOf r minMinutes maxMinutes in
  let delay := randomMinutes * 60 * 1000 in
  let nextTweetTime := lastPostTimestamp + delay in
  let* now_ := now in
  if nextTweetTime <=? now_ then
    let* executionStart := now in
    invoke tt generateNewTweet ;;
    let* executionEnd := now in
    let newNextTweetTime := now_ + delay in
    cacheSet nextTweetTimeKey
      (CVSchedule {| timestamp := newNextTweetTime;
                     scheduledAt := now_;
                     intervalMinutes := randomMinutes;
                     lastExecutionDuration :=
                       Some (executionEnd - executionStart) |})
  else
    cacheSet nextTweetTimeKey
      (CVSchedule {| timestamp := nextTweetTime;
                     scheduledAt := now_;
                     intervalMinutes := randomMinutes;
                     lastExecutionDuration := None |}).

(** [generateNewTweetLoop()] *)
Definition generateNewTweetLoop : M unit unit :=
  try_catch generateNewTweetLoopBody (fun _ => ret tt).

(** [trimTweetLength] on the value of a JSON member, which need not be a
    string: [None] is the [TypeError] of a missing string method. A
    non-string comes back unchanged when its [length] passes the first
    test, and fails at [slice] or [trim] otherwise. *)
Definition trimTweetLengthAny (v : json) : option json :=
  match v with
  | JString s => Some (JString (trimTweetLength s 280))
  | JArray l => if Z.of_nat (length l) <=? 280 then Some v else None
  | JObject _ =>
      match Json.getMember v (str "length") with
      | Some lv => if looseLe env lv 280 then Some v else None
      | None => None
      end
  | _ => None
  end.

(** [a || b || c] *)
Definition firstTruthy (a b c : option json) : option json :=
  if Json.truthyOpt a then a else if Json.truthyOpt b then b else c.

(** What [generateTweetContent] returns for a model response. *)
Definition contentOfResponse (response : jsstring) : json :=
  let cleanedResponse := Clean.cleanResponse response in
  let plain := JString (trimTweetLength cleanedResponse 280) in
  let trimmed (o : option json) :=
    match o with
    | Some t => match trimTweetLengthAny t with Some r => r | None => plain end
    | None => plain
    end in
  match Json.parse cleanedResponse with
  | None | Some JNull => plain
  | Some jsonResponse =>
      if Json.truthyOpt (Json.getMember jsonResponse textKey)
      then trimmed (Json.getMember jsonResponse textKey)
      else
        match jsonResponse with
        | JObject _ | JArray _ =>
            let possibleContent :=
              firstTruthy (Json.getMember jsonResponse (str "content"))
                          (Json.getMember jsonResponse (str "message"))
                          (Json.getMember jsonResponse (str "response")) in
            if Json.truthyOpt possibleContent then trimmed possibleContent
            else plain
        | _ => plain
        end
  end.

(** [generateTweetContent(tweetState, options)] *)
Definition generateTweetContent {R} : M R json :=
  let* h := request GenerateText in
  ret (contentOfResponse (modelText env h)).

Fixpoint describeImages {R} (photos : list string) : M R unit :=
  match photos with
  | [] => ret tt
  | url :: rest => request (DescribeImage url) ;; describeImages rest
  end.

(** The context both the quote and the reply build: the conversation
    thread, the image descriptions, the quoted tweet, the state. *)
Definition composeEnrichedState {R} (tweet : Tweet) : M R unit :=
  request (BuildConversationThread (tweet_id tweet)) ;;
  describeImages (tweet_photos tweet) ;;
  match tweet_quotedStatusId tweet with
  | Some q => try_catch (request (GetTweet q) ;; ret tt) (fun _ => ret tt)
  | None => ret tt
  end ;;
  request ComposeState ;;
  ret tt.

(** The [try] block of the quote action in [processTweetActions]. *)
Definition quoteTweet (tweet : Tweet) : M PipelineResult unit :=
  composeEnrichedState tweet ;;
  let* quoteContent := generateTweetContent in
  if negb (Json.truthy quoteContent) then return_ RUndefined
  else
    request (SendQuoteTweet quoteContent (tweet_id tweet)) ;;
    let* h := request ResultJson in
    if hasResult (responseBody env h) then
      push Quote ;;
      cacheSet ("twitter/quote_generation_" +:+ tweet_id tweet +:+ ".txt")
               (CVText quoteContent)
    else ret tt.

(** [handleTextOnlyReply(tweet, tweetState, executedActions)] *)
Definition handleTextOnlyReply (tweet : Tweet) : M unit unit :=
  try_catch
    (composeEnrichedState tweet ;;
     let* replyText := generateTweetContent in
     if negb (Json.truthy replyText) then return_ tt
     else
       request (SendTweet replyText (Some (tweet_id tweet)) false) ;;
       let* h := request ResultJson in
       if hasResult (responseBody env h) then
         push Reply ;;
         cacheSet ("twitter/reply_generation_" +:+ tweet_id tweet +:+ ".txt")
                  (CVText replyText)
       else ret tt)
    (fun _ => ret tt).

Definition memoryKey (tweet : Tweet) : string :=
  stringToUuid env (tweet_id tweet +:+ "-" +:+ agentId env).

Definition itemMemory (tweet : Tweet) (roomId : string)
    (executedActions : list ActionLabel) : Memory :=
  {| mem_id := memoryKey tweet;
     mem_userId := stringToUuid env (tweet_userId tweet);
     mem_agentId := agentId env;
     mem_roomId := roomId;
     mem_text := tweet_text tweet;
     mem_url := tweet_permanentUrl tweet;
     mem_source := "twitter";
     mem_action := Some (joinLabels executedActions);
     mem_createdAt := tweet_timestamp tweet * 1000 |}.

(** The four actions of one item, each in its own [try]. *)
Definition executeActions (tweet : Tweet) (actionResponse : ActionResponse)
  : M PipelineResult unit :=
  modify (setExecuted []) ;;
  (if like actionResponse then
     try_catch (request (LikeTweet (tweet_id tweet)) ;; push Like)
               (fun _ => ret tt)
   else ret tt) ;;
  (if retweet actionResponse then
     try_catch (request (RetweetCall (tweet_id tweet)) ;; push Retweet)
               (fun _ => ret tt)
   else ret tt) ;;
  (if quote actionResponse then
     try_catch (quoteTweet tweet) (fun _ => ret tt)
   else ret tt) ;;
  (if reply actionResponse then
     try_catch (invoke tt (handleTextOnlyReply tweet)) (fun _ => ret tt)
   else ret tt).

(** One iteration of the loop over the timeline: the [try] block, whose
    [continue] leaves [results] as they are, and its [catch]. *)
Definition processTweet (tweet : Tweet) (results : list ResultEntry)
  : M PipelineResult (list ResultEntry) :=
  try_catch
    (let* memory := getMemoryById (memoryKey tweet) in
     match memory with
     | Some _ => ret results
     | None =>
         let roomId :=
           stringToUuid env
             (tweet_conversationId tweet +:+ "-" +:+ agentId env) in
         request ComposeState ;;
         let* h := request (GenerateTweetActions (tweet_id tweet)) in
         match decision env h with
         | None => ret results
         | Some actionResponse =>
             executeActions tweet actionResponse ;;
             request (EnsureRoomExists roomId) ;;
             request (EnsureUserExists
                        (stringToUuid env (tweet_userId tweet))) ;;
             request (EnsureParticipantInRoom roomId) ;;
             let* executedActions := gets executed in
             createMemory (itemMemory tweet roomId executedActions) ;;
             ret (results ++
                  [{| tweetId := tweet_id tweet;
                      parsedActions := actionResponse;
                      executedActions := executedActions |}])
         end
     end)
    (fun _ => ret results).

Fixpoint processTweets (homeTimeline : list Tweet)
    (results : list ResultEntry) : M PipelineResult (list ResultEntry) :=
  match homeTimeline with
  | [] => ret results
  | tweet :: rest =>
      let* results' := processTweet tweet results in
      processTweets rest results'
  end.

(** [processTweetActions()] *)
Definition processTweetActions : M PipelineResult unit :=
  let* busy := gets isProcessing in
  if busy then return_ RNull
  else
    try_finally
      (try_catch
         (modify (setIsProcessing true) ;;
          let* t := now in
          modify (setLastProcessTime t) ;;
          request (EnsureUserExists (agentId env)) ;;
          let* h := request (FetchTimelineForActions 15) in
          let homeTimeline := timeline env h in
          let* results := processTweets homeTimeline [] in
          return_ (RResults results))
         (fun e => throw e))
      (setIsProcessing false).

End Client.

(* ===================================================================== *)
(** ** Images and video *)
(* ===================================================================== *)

Module Media.

(** Where the bytes of an image come from: the base64 payload of a data
    URL, decoded by [Buffer.from], or a file read by [fs.readFile]. *)
Inductive BufferSource : Type :=
| FromBase64 (payload : jsstring)
| FromFile (path : jsstring).

(** The class of the media type in the data URL pattern: letters, the
    hyphen, the plus and the slash. *)
Definition isMimeUnit (c : N) : bool :=
  ((65 <=? c) && (c <=? 90) || (97 <=? c) && (c <=? 122)
   || (c =? 45) || (c =? 43) || (c =? 47))%N.

Fixpoint spanMime (s : jsstring) : jsstring * jsstring :=
  match s with
  | c :: r =>
      if isMimeUnit c then let '(m, r') := spanMime r in (c :: m, r')
      else ([], s)
  | [] => ([], [])
  end.

(** The match of the data URL pattern, anchored at both ends: the prefix,
    a non-empty media type, the base64 marker, and a non-empty payload
    without line terminators. The result is the two groups. *)
Definition matchDataUrl (input : jsstring) : option (jsstring * jsstring) :=
  match Js.startsWith (str "data:") input with
  | Some r =>
      let '(mime, r1) := spanMime r in
      match mime with
      | [] => None
      | _ :: _ =>
          match Js.startsWith (str ";base64,") r1 with
          | Some payload =>
              match payload with
              | [] => None
              | _ :: _ =>
                  if forallb (fun c => negb (Js.isLineTerminator c)) payload
                  then Some (mime, payload) else None
              end
          | None => None
          end
      end
  | None => None
  end.

(** [imageToBuffer(input)]: [None] is the error [Invalid data URL]. *)
Definition imageToBuffer (input : jsstring) : option BufferSource :=
  match Js.startsWith (str "data:") input with
  | Some _ =>
      match matchDataUrl input with
      | Some (_, payload) => Some (FromBase64 payload)
      | None => None
      end
  | None => Some (FromFile input)
  end.

(** An element of the [images] argument of [postTweetWithImages]. *)
Inductive ImageArg : Type :=
| IsBuffer
| IsString (s : jsstring).

(** The callback mapped over [images]: [None] is a thrown error, the
    invalid format or the invalid data URL. *)
Definition toImageBuffer (img : ImageArg) : option unit :=
  match img with
  | IsBuffer => Some tt
  | IsString s =>
      match Js.startsWith (str "data:") s with
      | Some _ =>
          match imageToBuffer s with
          | Some _ => Some tt
          | None => None
          end
      | None => None
      end
  end.

(** How a call of [postTweetWithImages] ends: it resolves, or it rethrows
    the error of a conversion or of the send. *)
Inductive PostOutcome : Type :=
| Posted
| ImagesRejected
| SendRejected.

(** [postTweetWithImages(text, images, replyToTweetId)] *)
Definition postTweetWithImages (env : Env) (text : jsstring)
    (images : list ImageArg) (replyToTweetId : option string) (w : World)
  : PostOutcome * World :=
  if forallb (fun img => match toImageBuffer img with
                         | Some _ => true
                         | None => false
                         end) images
  then
    match request (R:=unit) env
            (SendTweet (JString text) replyToTweetId true) w with
    | (Throw _, w') => (SendRejected, w')
    | (_, w') => (Posted, w')
    end
  else (ImagesRejected, w).

End Media.

Module Video.

(** A [fetch] together with the reading of its body: a response whose
    body is an object, or the error of that message that the [fetch], the
    reading of the body or the access to its fields throws. *)
Inductive Fetched (A : Type) : Type :=
| Responded (a : A)
| Failed (message : string).

Arguments Responded {A} a.
Arguments Failed {A} message.

(** The answer to the creation request: [status] is [data.status]. *)
Record Created : Type := {
  created_ok : bool;
  created_statusText : string;
  created_errorText : string;
  created_status : option string
}.

(** The answer to a status request: [state] is [statusData.state] and
    [video] is [statusData.assets?.video], [None] when falsy. *)
Record Polled : Type := {
  polled_ok : bool;
  polled_errorText : string;
  polled_state : option string;
  polled_video : option string
}.

(** What [generateVideo] resolves to. *)
Inductive VideoResult : Type :=
| Success (data : string)
| Failure (error : string).

(** [error.message || "Unknown error occurred"] *)
Definition messageOf (message : string) : string :=
  match message with
  | EmptyString => "Unknown error occurred"
  | _ => message
  end.

Definition isState (name : string) (state : option string) : bool :=
  match state with
  | Some s => String.eqb s name
  | None => false
  end.

(** The polling loop over the answers to come; [None] when they run out
    before a final state. *)
Fixpoint poll (polls : list (Fetched Polled)) : option VideoResult :=
  match polls with
  | [] => None
  | Failed message :: _ => Some (Failure (messageOf message))
  | Responded p :: rest =>
      if negb (polled_ok p) then
        Some (Failure (messageOf ("Failed to check generation status: "
                                    +:+ polled_errorText p)))
      else if isState "completed" (polled_state p) then
        match polled_video p with
        | Some url => Some (Success url)
        | None => Some (Failure "No video URL in completed response")
        end
      else if isState "failed" (polled_state p) then
        Some (Failure "Video generation failed")
      else poll rest
  end.

(** [generateVideo(prompt, runtime)] against the answer to the creation
    request and the answers to the status requests. *)
Definition generateVideo (created : Fetched Created)
    (polls : list (Fetched Polled)) : option VideoResult :=
  match created with
  | Failed message => Some (Failure (messageOf message))
  | Responded r =>
      if negb (created_ok r) then
        Some (Failure (messageOf ("Luma API error: " +:+ created_statusText r
                                    +:+ " - " +:+ created_errorText r)))
      else if isState "completed" (created_status r) then
        Some (Failure "No video URL in completed response")
      else if isState "failed" (created_status r) then
        Some (Failure "Video generation failed")
      else poll polls
  end.

End Video.

(* ===================================================================== *)
(** ** Specification vocabulary *)
(* ===================================================================== *)

(** [wp m Q w]: run from [w], the block [m] ends in a completion and a
    world that satisfy [Q]. *)
Definition wp {R A} (m : M R A) (Q : Completion R A -> World -> Prop)
  : World -> Prop :=
  fun w => Q (fst (m w)) (snd (m w)).

(** The calls that publish or record: the sends and the writes to the
    cache, the tweet cache and the memory store. *)
Definition isPublishOrWrite (c : Call) : bool :=
  match c with
  | SendTweet _ _ _ | SendQuoteTweet _ _ | CacheSet _ | CacheTweet _
  | CreateMemory _ => true
  | _ => false
  end.

(** The model response of the cycle that starts in [w]. *)
Definition cycleResponse (env : Env) (w : World) : jsstring :=
  modelText env
    (GenerateText :: ComposeState :: EnsureUserExists (agentId env)
       :: MathRandom :: history w).

(** Nothing was published or recorded between [w] and [w']. *)
Definition nothingRecorded (w w' : World) : Prop :=
  cache w' = cache w /\ memories w' = memories w /\
  tweetCache w' = tweetCache w /\
  forall c, In c (history w') -> isPublishOrWrite c = true -> In c (history w).

Definition notReturn {R A} (c : Completion R A) : Prop :=
  match c with Return _ => False | _ => True end.

Definition isNormal {R A} (c : Completion R A) : Prop :=
  match c with Normal _ => True | _ => False end.

(** Every record of [w] is still there in [w']. *)
Definition memGrows (w w' : World) : Prop :=
  forall k, is_Some (memories w !! k) -> is_Some (memories w' !! k).

(** The calls around the actions of an item, and the fetch. *)
Definition bookkeeping (c : Call) : bool :=
  match c with
  | EnsureUserExists _ | EnsureRoomExists _ | EnsureParticipantInRoom _
  | FetchTimelineForActions _ | GetMemoryById _ | ComposeState
  | GenerateTweetActions _ | CreateMemory _ => true
  | _ => false
  end.

(** The decision engine returns a decision for the item, whenever asked. *)
Definition decided (env : Env) (t : Tweet) : Prop :=
  forall h, decision env (GenerateTweetActions (tweet_id t) :: h) <> None.

(** The JSON text of an object whose one member [text] is the string
    literal with the units [s]. *)
Definition wrapText (s : jsstring) : jsstring :=
  ([123; 34] ++ textKey ++ [34; 58; 32; 34] ++ s ++ [34; 125])%N.

(** A unit that stands for itself inside a JSON string literal. *)
Definition isPlain (c : N) : bool :=
  ((32 <=? c) && negb (c =? 34) && negb (c =? 92))%N.

(** A unit that is no quote mark and no backslash. *)
Definition isUnquoted (c : N) : bool :=
  (negb (c =? 34) && negb (c =? 39) && negb (c =? 92))%N.

(** The calls of a schedule check that generates nothing. *)
Definition isScheduleCall (c : Call) : bool :=
  match c with
  | CacheGet _ | CacheSet _ | DateNow | MathRandom => true
  | _ => false
  end.

(** Every record of [w] is in [w'] as it was. *)
Definition memKept (w w' : World) : Prop :=
  forall k m, memories w !! k = Some m -> memories w' !! k = Some m.

(** The decision enables the action. *)
Definition enabled (d : ActionResponse) (a : ActionLabel) : bool :=
  match a with
  | Like => like d
  | Retweet => retweet d
  | Quote => quote d
  | Reply => reply d
  end.

(** The store of [w] holds the record of the result entry [e], tagged
    with the executed actions of the entry. *)
Definition backed (env : Env) (w : World) (e : ResultEntry) : Prop :=
  exists m,
    memories w !! stringToUuid env (tweetId e +:+ "-" +:+ agentId env)
    = Some m /\
    mem_action m = Some (joinLabels (executedActions e)).

(** The completion of a block of [processTweetActions] that did not
    throw: it went on, or it hit the bare [return]. *)
Definition goesOnOrReturns {A} (c : Completion PipelineResult A) : Prop :=
  match c with
  | Normal _ => True
  | Return r => r = RUndefined
  | Throw _ => False
  end.

(** The four actions, in the order the pipeline attempts them. *)
Definition allActions : list ActionLabel := [Like; Retweet; Quote; Reply].

(** The executed actions of a result entry are among the actions its
    decision enables, in the order of the attempts, each at most once. *)
Definition executedWithinDecision (e : ResultEntry) : Prop :=
  sublist (executedActions e)
          (List.filter (enabled (parsedActions e)) allActions).

(** A status answer after which [generateVideo] polls again. *)
Definition pendingPoll (q : Video.Fetched Video.Polled) : bool :=
  match q with
  | Video.Responded p =>
      Video.polled_ok p
      && negb (Video.isState "completed" (Video.polled_state p))
      && negb (Video.isState "failed" (Video.polled_state p))
  | Video.Failed _ => false
  end.

(** A payload the data URL pattern accepts after the base64 marker. *)
Definition isPayload (payload : jsstring) : bool :=
  match payload with
  | [] => false
  | _ :: _ => forallb (fun c => negb (Js.isLineTerminator c)) payload
  end.

(** A media type the data URL pattern accepts. *)
Definition isMediaType (mime : jsstring) : bool :=
  match mime with
  | [] => false
  | _ :: _ => forallb Media.isMimeUnit mime
  end.

(** The decision engine returns no decision for the item, whenever
    asked. *)
Definition undecided (env : Env) (t : Tweet) : Prop :=
  forall h, decision env (GenerateTweetActions (tweet_id t) :: h) = None.

(** The decision engine returns a decision for the item at some point. *)
Definition everDecided (env : Env) (id : string) : Prop :=
  exists h d, decision env (GenerateTweetActions id :: h) = Some d.

(** A decision asks for a quote and a content generation comes back
    empty: what the bare return of the quote needs. *)
Definition quoteCanBeEmpty (env : Env) : Prop :=
  (exists h d, decision env h = Some d /\ quote d = true) /\
  (exists h, Json.truthy (contentOfResponse env (modelText env h)) = false).

(* ===================================================================== *)
(** ** Scenarios *)
(* ===================================================================== *)

Module Scenario.

Definition mkTweet (id : string) (text : string) : Tweet :=
  {| tweet_id := id; tweet_name := "Ann"; tweet_username := "ann";
     tweet_userId := "u-" +:+ id; tweet_text := str text;
     tweet_conversationId := "c-" +:+ id; tweet_timestamp := 1700000000;
     tweet_permanentUrl := "https://twitter.com/ann/status/" +:+ id;
     tweet_photos := []; tweet_quotedStatusId := None |}.

Definition emptyWorld : World :=
  {| isProcessing := false; lastProcessTime := 0;
     modelProvider := OtherProvider "openai";
     memories := ∅; cache := ∅; tweetCache := []; executed := [];
     history := [] |}.

(** An environment for the agent [agent], user [bot], built from the
    behaviours a scenario varies. *)
Definition mkEnv (imageGen : option string) (handler : bool)
    (rej : list Call -> bool) (tl : list Tweet)
    (dec : list Call -> option ActionResponse)
    (txt : list Call -> jsstring)
    (body : list Call -> option TweetResult)
    (img : list Call -> option ImageResult) : Env :=
  {| agentId := "agent"; TWITTER_USERNAME := "bot";
     profileUsername := "bot"; stringToUuid := fun s => s;
     IMAGE_GEN := imageGen; imageGenChancePercent := inject_Z 100;
     POST_INTERVAL_MIN := Some 90; POST_INTERVAL_MAX := Some 90;
     MAX_TWEET_LENGTH := None; DEFAULT_MAX_TWEET_LENGTH := 280;
     TWITTER_DRY_RUN := false; imageActionHandler := handler;
     rejects := rej; clock := fun h => 1000 * Z.of_nat (length h);
     random := fun _ => inject_Z 0; timeline := fun _ => tl;
     decision := dec; modelText := txt; responseBody := body;
     imageResult := img; looseLe := fun _ _ => false |}.

Definition okBody : option TweetResult :=
  Some {| rest_id := "900";
          legacy := Some {| full_text := str "hello";
                            conversation_id_str := "900";
                            created_at := 1700000000 |} |}.

Definition decideFor (id : string) (d : ActionResponse) (h : list Call)
  : option ActionResponse :=
  match h with
  | GenerateTweetActions i :: _ => if String.eqb i id then Some d else None
  | _ => None
  end.

Definition rejectsCall (p : Call -> bool) (h : list Call) : bool :=
  match h with
  | c :: _ => p c
  | [] => false
  end.

Definition isLike (c : Call) : bool :=
  match c with LikeTweet _ => true | _ => false end.

Definition likeOnly : ActionResponse :=
  {| like := true; retweet := false; quote := false; reply := false |}.

Definition likeRetweet : ActionResponse :=
  {| like := true; retweet := true; quote := false; reply := false |}.

Definition quoteReply : ActionResponse :=
  {| like := false; retweet := false; quote := true; reply := true |}.

Definition t1 := mkTweet "1" "seen before".
Definition t2 := mkTweet "2" "nothing to do".
Definition t3 := mkTweet "3" "worth a like".

(** The memory of an item processed on an earlier run. *)
Definition seen (t : Tweet) : Memory :=
  {| mem_id := tweet_id t +:+ "-agent"; mem_userId := tweet_userId t;
     mem_agentId := "agent"; mem_roomId := tweet_conversationId t +:+ "-agent";
     mem_text := tweet_text t; mem_url := tweet_permanentUrl t;
     mem_source := "twitter"; mem_action := Some "like";
     mem_createdAt := 0 |}.

(** The end-to-end scenario: three items fetched, the first already
    processed, the second without a decision, the third liked. *)
Definition endToEndEnv : Env :=
  mkEnv (Some "false") false (fun _ => false) [t1; t2; t3]
        (decideFor "3" likeOnly) (fun _ => str "hello")
        (fun _ => okBody) (fun _ => None).

Definition endToEndWorld : World :=
  setMemories {[ "1-agent" := seen t1 ]} emptyWorld.

(** The JSON text of an object with the one member [text]. *)
Definition wrapped (s : string) : jsstring :=
  ([123; 34] ++ str "text" ++ [34; 58; 32; 34] ++ str s ++ [34; 125])%N.

End Scenario.

Module EmptyResponse.

(** A cycle whose model answers with the empty string. *)
Definition env : Env :=
  Scenario.mkEnv (Some "false") false (fun _ => false) []
                 (fun _ => None) (fun _ => str "")
                 (fun _ => Scenario.okBody) (fun _ => None).

End EmptyResponse.

Module NotYetDue.

(** A check at time 3000 ms with no post recorded: the interval drawn is
    90 minutes, so the post is not yet due. *)
Definition env : Env := EmptyResponse.env.

End NotYetDue.

Module LikeFails.

(** One item with the decision like and retweet; every like rejects. *)
Definition env : Env :=
  Scenario.mkEnv (Some "false") false
                 (Scenario.rejectsCall Scenario.isLike) [Scenario.t3]
                 (Scenario.decideFor "3" Scenario.likeRetweet)
                 (fun _ => str "hello")
                 (fun _ => Scenario.okBody) (fun _ => None).

End LikeFails.

Module BadResponse.

(** A text-only cycle whose send response lacks
    [data.create_tweet.tweet_results.result]. *)
Definition env : Env :=
  Scenario.mkEnv (Some "false") false (fun _ => false) []
                 (fun _ => None) (fun _ => str "hello")
                 (fun _ => None) (fun _ => None).

End BadResponse.

Module NoImagePlugin.

(** A cycle with image generation enabled and drawn, and no
    [imageGeneration] plugin. *)
Definition env : Env :=
  Scenario.mkEnv (Some "true") false (fun _ => false) []
                 (fun _ => None) (fun _ => str "hello")
                 (fun _ => Scenario.okBody) (fun _ => None).

End NoImagePlugin.

Module EmptyQuote.

Definition quoted := Scenario.mkTweet "7" "quote me".
Definition next := Scenario.mkTweet "8" "and me".

(** Two items; the first is to be quoted and replied to, and every
    content generation yields the empty string. *)
Definition env : Env :=
  Scenario.mkEnv (Some "false") false (fun _ => false) [quoted; next]
                 (Scenario.decideFor "7" Scenario.quoteReply)
                 (fun _ => str "")
                 (fun _ => Scenario.okBody) (fun _ => None).

Definition replyOnly : ActionResponse :=
  {| like := false; retweet := false; quote := false; reply := true |}.

(** The same with the reply alone enabled. *)
Definition envReply : Env :=
  Scenario.mkEnv (Some "false") false (fun _ => false) [quoted; next]
                 (Scenario.decideFor "7" replyOnly)
                 (fun _ => str "")
                 (fun _ => Scenario.okBody) (fun _ => None).

End EmptyQuote.

Module DryRun.

(** A text-only cycle with [TWITTER_DRY_RUN] set. *)
Definition env : Env :=
  {| agentId := "agent"; TWITTER_USERNAME := "bot";
     profileUsername := "bot"; stringToUuid := fun s => s;
     IMAGE_GEN := Some "false"; imageGenChancePercent := inject_Z 30;
     POST_INTERVAL_MIN := None; POST_INTERVAL_MAX := None;
     MAX_TWEET_LENGTH := Some 280; DEFAULT_MAX_TWEET_LENGTH := 280;
     TWITTER_DRY_RUN := true; imageActionHandler := false;
     rejects := fun _ => false; clock := fun h => 1000 * Z.of_nat (length h);
     random := fun _ => 1 # 2; timeline := fun _ => [];
     decision := fun _ => None; modelText := fun _ => str "hello";
     responseBody := fun _ => Scenario.okBody;
     imageResult := fun _ => None; looseLe := fun _ _ => false |}.

End DryRun.

Module Published.

(** A text-only cycle in which every call resolves and the send response
    carries the result. The model wraps its answer in JSON. *)
Definition raw : jsstring := wrapText (str "Tides turn. Boats wait.").

Definition env : Env :=
  Scenario.mkEnv (Some "FALSE") false (fun _ => false) []
                 (fun _ => None) (fun _ => raw)
                 (fun _ => Scenario.okBody) (fun _ => None).

End Published.

Module WithImagePlugin.

(** Image generation enabled and drawn, the plugin present, and a handler
    that returns nothing. *)
Definition env : Env :=
  Scenario.mkEnv (Some "true") true (fun _ => false) []
                 (fun _ => None) (fun _ => str "hello")
                 (fun _ => Scenario.okBody) (fun _ => None).

End WithImagePlugin.

Module DueWithoutSetting.

(** A late check (the clock is far past any interval) with no [IMAGE_GEN]
    setting. *)
Definition env : Env :=
  {| agentId := "agent"; TWITTER_USERNAME := "bot";
     profileUsername := "bot"; stringToUuid := fun s => s;
     IMAGE_GEN := None; imageGenChancePercent := inject_Z 30;
     POST_INTERVAL_MIN := None; POST_INTERVAL_MAX := None;
     MAX_TWEET_LENGTH := None; DEFAULT_MAX_TWEET_LENGTH := 280;
     TWITTER_DRY_RUN := false; imageActionHandler := false;
     rejects := fun _ => false; clock := fun _ => 1700000000000;
     random := fun _ => 1 # 2; timeline := fun _ => [];
     decision := fun _ => None; modelText := fun _ => str "hello";
     responseBody := fun _ => Scenario.okBody;
     imageResult := fun _ => None; looseLe := fun _ _ => false |}.

End DueWithoutSetting.

Module FetchFails.

Definition isFetch (c : Call) : bool :=
  match c with FetchTimelineForActions _ => true | _ => false end.

(** A run whose timeline fetch rejects. *)
Definition env : Env :=
  Scenario.mkEnv (Some "false") false (Scenario.rejectsCall isFetch)
                 [Scenario.t3] (Scenario.decideFor "3" Scenario.likeOnly)
                 (fun _ => str "hello")
                 (fun _ => Scenario.okBody) (fun _ => None).

End FetchFails.

Module DueTick.

(** A check at time 6 003 000 ms with no post recorded: the interval drawn
    is 90 minutes, so the post is due. Every call resolves and the send
    response carries the result. *)
Definition env : Env :=
  {| agentId := "agent"; TWITTER_USERNAME := "bot";
     profileUsername := "bot"; stringToUuid := fun s => s;
     IMAGE_GEN := Some "false"; imageGenChancePercent := inject_Z 30;
     POST_INTERVAL_MIN := Some 90; POST_INTERVAL_MAX := Some 90;
     MAX_TWEET_LENGTH := None; DEFAULT_MAX_TWEET_LENGTH := 280;
     TWITTER_DRY_RUN := false; imageActionHandler := false;
     rejects := fun _ => false;
     clock := fun h => 6000000 + 1000 * Z.of_nat (length h);
     random := fun _ => inject_Z 0; timeline := fun _ => [];
     decision := fun _ => None; modelText := fun _ => str "hello";
     responseBody := fun _ => Scenario.okBody;
     imageResult := fun _ => None; looseLe := fun _ _ => false |}.

End DueTick.

(* ===================================================================== *)
(** ** Reasoning about completions *)
(* ===================================================================== *)

Section WpRules.

Context {R A B : Type}.

Lemma wp_ret (a : A) (Q : Completion R A -> World -> Prop) w :
  Q (Normal a) w -> wp (ret a) Q w.
Proof. intro H. exact H. Qed.

Lemma wp_return (r : R) (Q : Completion R A -> World -> Prop) w :
  Q (Return r) w -> wp (return_ r) Q w.
Proof. intro H. exact H. Qed.

Lemma wp_throw (e : Error) (Q : Completion R A -> World -> Prop) w :
  Q (Throw e) w -> wp (throw e) Q w.
Proof. intro H. exact H. Qed.

Lemma wp_gets (f : World -> A) (Q : Completion R A -> World -> Prop) w :
  Q (Normal (f w)) w -> wp (gets f) Q w.
Proof. intro H. exact H. Qed.

Lemma wp_modify (f : World -> World) (Q : Completion R unit -> World -> Prop) w :
  Q (Normal tt) (f w) -> wp (modify f) Q w.
Proof. intro H. exact H. Qed.

Lemma wp_bind (m : M R A) (k : A -> M R B)
    (Q : Completion R B -> World -> Prop) w :
  wp m (fun c w' =>
          match c with
          | Normal a => wp (k a) Q w'
          | Return r => Q (Return r) w'
          | Throw e => Q (Throw e) w'
          end) w ->
  wp (bind m k) Q w.
Proof.
  unfold wp, bind. destruct (m w) as [[a | r | e] w']; simpl; auto.
Qed.

Lemma wp_try_catch (body : M R A) (handler : Error -> M R A)
    (Q : Completion R A -> World -> Prop) w :
  wp body (fun c w' =>
             match c with
             | Throw e => wp (handler e) Q w'
             | _ => Q c w'
             end) w ->
  wp (try_catch body handler) Q w.
Proof.
  unfold wp, try_catch. destruct (body w) as [[a | r | e] w']; simpl; auto.
Qed.

Lemma wp_try_finally (body : M R A) (fin : World -> World)
    (Q : Completion R A -> World -> Prop) w :
  wp body (fun c w' => Q c (fin w')) w ->
  wp (try_finally body fin) Q w.
Proof.
  unfold wp, try_finally. destruct (body w) as [c w']; simpl; auto.
Qed.

Lemma wp_conseq (m : M R A) (Q Q' : Completion R A -> World -> Prop) w :
  wp m Q w -> (forall c w', Q c w' -> Q' c w') -> wp m Q' w.
Proof. unfold wp. auto. Qed.

End WpRules.

Lemma wp_invoke {R R'} (undef : R') (body : M R' unit)
    (Q : Completion R R' -> World -> Prop) w :
  wp body (fun c w' =>
             match c with
             | Normal _ => Q (Normal undef) w'
             | Return r => Q (Normal r) w'
             | Throw e => Q (Throw e) w'
             end) w ->
  wp (invoke undef body) Q w.
Proof.
  unfold wp, invoke. destruct (body w) as [[a | r | e] w']; simpl; auto.
Qed.

Lemma wp_request {R} env (c : Call) (Q : Completion R (list Call) -> World -> Prop) w :
  (rejects env (c :: history w) = true ->
   Q (Throw (Rejected c)) (setHistory (c :: history w) w)) ->
  (rejects env (c :: history w) = false ->
   Q (Normal (c :: history w)) (setHistory (c :: history w) w)) ->
  wp (request env c) Q w.
Proof.
  unfold wp, request. destruct (rejects env (c :: history w)); simpl; auto.
Qed.

Lemma wp_now {R} env (Q : Completion R Z -> World -> Prop) w :
  Q (Normal (clock env (DateNow :: history w)))
    (setHistory (DateNow :: history w) w) ->
  wp (now env) Q w.
Proof. intro H. exact H. Qed.

Lemma wp_mathRandom {R} env (Q : Completion R Q -> World -> Prop) w :
  Q (Normal (random env (MathRandom :: history w)))
    (setHistory (MathRandom :: history w) w) ->
  wp (mathRandom env) Q w.
Proof. intro H. exact H. Qed.

(** One step of symbolic execution through the structure of a block. *)
Ltac wp_step :=
  lazymatch goal with
  | |- wp (bind _ _) _ _ => apply wp_bind
  | |- wp (try_catch _ _) _ _ => apply wp_try_catch
  | |- wp (try_finally _ _) _ _ => apply wp_try_finally
  | |- wp (invoke _ _) _ _ => apply wp_invoke
  | |- wp (ret _) _ _ => apply wp_ret
  | |- wp (return_ _) _ _ => apply wp_return
  | |- wp (throw _) _ _ => apply wp_throw
  | |- wp (gets _) _ _ => apply wp_gets
  | |- wp (modify _) _ _ => apply wp_modify
  | |- wp (now _) _ _ => apply wp_now
  | |- wp (mathRandom _) _ _ => apply wp_mathRandom
  | |- wp (request _ _) _ _ => apply wp_request; intros ?
  end.

(** A branch on a value: use the hypothesis that determines it, if there
    is one, and split on it otherwise. *)
Ltac wp_case :=
  lazymatch goal with
  | |- wp (match ?x with _ => _ end) _ _ =>
      first [ match goal with H : x = _ |- _ => rewrite H end
            | destruct x eqn:? ]
  | |- wp (if ?b then _ else _) _ _ =>
      first [ match goal with H : b = _ |- _ => rewrite H end
            | destruct b eqn:? ]
  end.

Ltac wp_simpl :=
  cbn [history memories cache tweetCache executed isProcessing
       setHistory setMemories setCache setTweetCache setExecuted
       setIsProcessing setLastProcessTime setModelProvider
       like retweet quote reply] in *.

Ltac wp_run_with tac :=
  repeat (first [wp_step | wp_case]; wp_simpl; try tac); wp_simpl.

Ltac wp_run := wp_run_with fail.

Ltac unfold_store :=
  unfold cacheSet, cacheGet, getMemoryById, createMemory, cacheTweet, push.

(** Use the specification [L] of a block in the middle of a run. *)
Tactic Notation "wp_use" uconstr(L) :=
  eapply wp_conseq; [eapply L | cbv beta; intros ? ? ?].

Lemma wp_any {R A} (m : M R A) (Q : Completion R A -> World -> Prop) w :
  (forall c w', m w = (c, w') -> Q c w') -> wp m Q w.
Proof. intro H. unfold wp. apply H. destruct (m w); reflexivity. Qed.

Lemma wp_elim {R A} (m : M R A) (Q : Completion R A -> World -> Prop) w c w' :
  wp m Q w -> m w = (c, w') -> Q c w'.
Proof. unfold wp. intros H E. rewrite E in H. exact H. Qed.

Lemma wp_exists {R A} (m : M R A) (Q : Completion R A -> World -> Prop) w :
  wp m Q w -> exists c w', m w = (c, w') /\ Q c w'.
Proof.
  unfold wp. intro H. exists (fst (m w)), (snd (m w)).
  split; [destruct (m w); reflexivity | exact H].
Qed.

Ltac in_history := cbn [In]; repeat (first [left; reflexivity | right]).

(* ===================================================================== *)
(** ** The guard of the action pipeline *)
(* ===================================================================== *)

(** C7: invoked while [isProcessing] is set, [processTweetActions] returns
    [null] and leaves the whole world as it was: no call to the memory
    store, the platform client or the cache is made (the history is
    unchanged), and nothing is written. *)
Theorem processTweetActions_guard_noop env (w : World) :
  isProcessing w = true ->
  processTweetActions env w = (Return RNull, w).
Proof.
  intro Hbusy. unfold processTweetActions, bind, gets. rewrite Hbusy.
  reflexivity.
Qed.

Lemma processTweetActions_guard_noop_witness :
  let w := setIsProcessing true Scenario.endToEndWorld in
  isProcessing w = true /\
  processTweetActions Scenario.endToEndEnv w = (Return RNull, w).
Proof.
  split; [reflexivity |].
  apply (processTweetActions_guard_noop Scenario.endToEndEnv). reflexivity.
Defined.

(** C10: an invocation that passes the entry guard ends with
    [isProcessing] cleared, whatever its completion: the results, the bare
    return, or a propagated error. *)
Theorem processTweetActions_clears_guard env (w : World) :
  isProcessing w = false ->
  isProcessing (snd (processTweetActions env w)) = false.
Proof.
  intro Hfree. unfold processTweetActions, bind at 1. unfold gets.
  rewrite Hfree. unfold try_finally.
  destruct (try_catch _ _ w) as [c w']. reflexivity.
Qed.

Lemma processTweetActions_clears_guard_witness :
  let w := Scenario.endToEndWorld in
  isProcessing w = false /\
  isProcessing (snd (processTweetActions Scenario.endToEndEnv w)) = false.
Proof.
  split; [reflexivity |].
  apply (processTweetActions_clears_guard Scenario.endToEndEnv). reflexivity.
Defined.

(* ===================================================================== *)
(** ** Content cleaning in a post-generation cycle *)
(* ===================================================================== *)

Lemma nothingRecorded_refl w : nothingRecorded w w.
Proof. repeat split; auto. Qed.

Lemma nothingRecorded_call c w w' :
  isPublishOrWrite c = false ->
  nothingRecorded w w' ->
  nothingRecorded w (setHistory (c :: history w') w').
Proof.
  intros Hc (Hcache & Hmem & Htc & Hhist). repeat split; auto.
  cbn [history setHistory]. intros d [<- | Hin] Hd.
  - congruence.
  - auto.
Qed.

Example extractContent_examples :
  Clean.extractContent (Scenario.wrapped "hello") = JString (str "hello") /\
  Clean.extractContent (str "hello") = JString (str "hello") /\
  Clean.extractContent (str "") = JString [] /\
  Clean.extractContent (str "   ") = JString [].
Proof. vm_compute. repeat split. Qed.

Ltac nothing_recorded :=
  repeat (apply nothingRecorded_call; [reflexivity |]);
  apply nothingRecorded_refl.

Lemma generateNewTweet_empty_aborts env w :
  Json.truthy (Clean.extractContent (cycleResponse env w)) = false ->
  nothingRecorded w (snd (generateNewTweet env w)).
Proof.
  intro Hempty.
  change (wp (generateNewTweet env) (fun _ w' => nothingRecorded w w') w).
  unfold generateNewTweet, cycleResponse in *.
  wp_run_with ltac:(rewrite Hempty in *; discriminate).
  all: nothing_recorded.
Qed.

(** C9: the content cleaning of [generateNewTweet] maps the wrapped
    response to [hello], the bare response to [hello], and an empty or
    blank response to the empty content; and whenever the cleaned content
    of the cycle's response is empty, the cycle ends with no publish, no
    cache write and no memory write. *)
Theorem generateNewTweet_content_cleaning :
  Clean.extractContent (Scenario.wrapped "hello") = JString (str "hello") /\
  Clean.extractContent (str "hello") = JString (str "hello") /\
  Clean.extractContent (str "") = JString [] /\
  Clean.extractContent (str "   ") = JString [] /\
  forall env w,
    Json.truthy (Clean.extractContent (cycleResponse env w)) = false ->
    nothingRecorded w (snd (generateNewTweet env w)).
Proof.
  destruct extractContent_examples as (H1 & H2 & H3 & H4).
  exact (conj H1 (conj H2 (conj H3 (conj H4 generateNewTweet_empty_aborts)))).
Qed.

Lemma generateNewTweet_content_cleaning_witness :
  Json.truthy
    (Clean.extractContent (cycleResponse EmptyResponse.env Scenario.emptyWorld))
  = false /\
  nothingRecorded Scenario.emptyWorld
    (snd (generateNewTweet EmptyResponse.env Scenario.emptyWorld)).
Proof.
  split; [reflexivity |].
  apply (proj2 (proj2 (proj2 (proj2 generateNewTweet_content_cleaning)))).
  reflexivity.
Defined.

(* ===================================================================== *)
(** ** The posting schedule *)
(* ===================================================================== *)

(** With the [IMAGE_GEN] setting missing the cycle throws at its first
    statement; with the setting there it catches every error. *)
Lemma generateNewTweet_throws_iff env (w : World) :
  (exists e, fst (generateNewTweet env w) = Throw e) <-> IMAGE_GEN env = None.
Proof.
  unfold generateNewTweet. destruct (IMAGE_GEN env) as [s |].
  - split; [| discriminate]. intros [e He]. exfalso. revert He.
    unfold bind at 1. unfold ret at 1. unfold bind at 1.
    unfold mathRandom at 1. unfold try_catch at 1.
    match goal with
    | |- context [match ?body ?w0 with _ => _ end] =>
        destruct (body w0) as [[a | r | e'] w1]
    end; cbn; discriminate.
  - split; [reflexivity |]. intros _. exists TypeError. reflexivity.
Qed.

(** C8: an evaluation of the posting schedule runs to the end of its
    [try] block exactly when the cache read and the cache write resolve
    and, for a due check, the cycle it runs does not throw (the
    [IMAGE_GEN] setting is there). Every evaluation that does so has
    written the schedule under [nextTweetTime]: the next due time, the
    time of the check and the interval drawn; a due check, which first
    runs [generateNewTweet], also the duration of that run. *)
Theorem generateNewTweetLoop_persists_schedule env (w : World) :
  let h := MathRandom :: CacheGet (lastPostKey (TWITTER_USERNAME env))
             :: history w in
  let last :=
    lastPostTimestampOf (cache w !! lastPostKey (TWITTER_USERNAME env)) in
  let interval :=
    randomMinutesOf (random env h) (orDefault (POST_INTERVAL_MIN env) 90)
                    (orDefault (POST_INTERVAL_MAX env) 180) in
  let now_ := clock env (DateNow :: h) in
  let delay := interval * 60 * 1000 in
  let due := last + delay <=? now_ in
  let cycle := generateNewTweet env (setHistory (DateNow :: DateNow :: h) w) in
  let hend := DateNow :: (if due then history (snd cycle) else h) in
  let st :=
    {| timestamp := (if due then now_ else last) + delay;
       scheduledAt := now_;
       intervalMinutes := interval;
       lastExecutionDuration :=
         if due
         then Some (clock env hend - clock env (DateNow :: DateNow :: h))
         else None |} in
  let run := generateNewTweetLoopBody env w in
  (fst run = Normal tt <->
     rejects env (CacheGet (lastPostKey (TWITTER_USERNAME env)) :: history w)
       = false /\
     (due = true -> IMAGE_GEN env <> None) /\
     rejects env (CacheSet (nextTweetTimeKey env) :: hend) = false) /\
  (fst run = Normal tt ->
     cache (snd run) !! nextTweetTimeKey env = Some (CVSchedule st)).
Proof.
  cbv zeta.
  match goal with
  | |- (fst ?r = _ <-> ?C) /\ (_ -> cache (snd ?r) !! ?k = ?v) =>
      change (wp (generateNewTweetLoopBody env)
                (fun c w' => (c = Normal tt <-> C) /\
                             (c = Normal tt -> cache w' !! k = v)) w)
  end.
  unfold generateNewTweetLoopBody. unfold_store.
  wp_run.
  - split; [split; [discriminate | intros [E _]; congruence] | discriminate].
  - apply wp_any. intros c w1 Hgen.
    match goal with
    | |- context [snd (generateNewTweet env ?w0)] =>
        assert (Hg : generateNewTweet env w0 = (c, w1)) by exact Hgen;
        pose proof (generateNewTweet_throws_iff env w0) as Hthrow;
        rewrite Hg in *
    end.
    cbn [fst snd] in *. clear Hgen.
    destruct c as [[] | [] | e]; wp_run.
    all: split; [split | ]; try discriminate.
    all: try (intros _; apply lookup_insert_eq).
    all: try (intros (_ & _ & E); congruence).
    all: try (intros _; reflexivity).
    all: try (intros _; repeat split; try assumption;
              intros _ Hnone; apply Hthrow in Hnone as [e' He'];
              discriminate).
    intros (_ & Himg & _). exfalso. apply Himg; [reflexivity |].
    apply Hthrow. eauto.
  - split; [split | ]; try discriminate.
    intros (_ & _ & E). congruence.
  - split; [split |].
    + intros _. repeat split; try assumption. discriminate.
    + reflexivity.
    + intros _. apply lookup_insert_eq.
Qed.

Lemma generateNewTweetLoop_persists_schedule_witness :
  (let run := generateNewTweetLoopBody DueTick.env Scenario.emptyWorld in
   fst run = Normal tt /\
   cache (snd run) !! nextTweetTimeKey DueTick.env
   = Some (CVSchedule {| timestamp := 11403000; scheduledAt := 6003000;
                         intervalMinutes := 90;
                         lastExecutionDuration := Some 15000 |})) /\
  (let run := generateNewTweetLoopBody NotYetDue.env Scenario.emptyWorld in
   fst run = Normal tt /\
   cache (snd run) !! nextTweetTimeKey NotYetDue.env
   = Some (CVSchedule {| timestamp := 5400000; scheduledAt := 3000;
                         intervalMinutes := 90;
                         lastExecutionDuration := None |})).
Proof.
  split.
  - destruct (generateNewTweetLoop_persists_schedule DueTick.env
                Scenario.emptyWorld) as [Hruns Hstored].
    assert (Hrun : fst (generateNewTweetLoopBody DueTick.env
                          Scenario.emptyWorld) = Normal tt).
    { apply Hruns.
      split; [reflexivity | split; [intros _; discriminate | reflexivity]]. }
    split; [exact Hrun |]. exact (Hstored Hrun).
  - destruct (generateNewTweetLoop_persists_schedule NotYetDue.env
                Scenario.emptyWorld) as [Hruns Hstored].
    assert (Hrun : fst (generateNewTweetLoopBody NotYetDue.env
                          Scenario.emptyWorld) = Normal tt).
    { apply Hruns.
      split; [reflexivity | split; [intros _; discriminate | reflexivity]]. }
    split; [exact Hrun |]. exact (Hstored Hrun).
Defined.

(* ===================================================================== *)
(** ** The actions of one item *)
(* ===================================================================== *)

(** C4: for an item with the decision like and retweet only whose like
    call rejects, the retweet is the next call after the failed like,
    whether it then resolves or not. When it resolves, [executedActions]
    is exactly [retweet] at the end of the item; and when the calls that
    record the item resolve too, the item ends with the result entry and
    the memory that carry exactly [retweet], and with no call after the
    record. *)
Theorem like_failure_does_not_block_retweet env (t : Tweet)
    (results : list ResultEntry) (w : World) :
  let d := {| like := true; retweet := true; quote := false; reply := false |} in
  let roomId :=
    stringToUuid env (tweet_conversationId t +:+ "-" +:+ agentId env) in
  let h0 := GetMemoryById (memoryKey env t) :: history w in
  let h1 := GenerateTweetActions (tweet_id t) :: ComposeState :: h0 in
  let h2 := LikeTweet (tweet_id t) :: h1 in
  let h3 := RetweetCall (tweet_id t) :: h2 in
  let h4 := EnsureRoomExists roomId :: h3 in
  let h5 := EnsureUserExists (stringToUuid env (tweet_userId t)) :: h4 in
  let h6 := EnsureParticipantInRoom roomId :: h5 in
  let h7 := CreateMemory (memoryKey env t) :: h6 in
  let item := processTweet env t results w in
  rejects env h0 = false ->
  memories w !! memoryKey env t = None ->
  rejects env (ComposeState :: h0) = false ->
  rejects env h1 = false ->
  decision env h1 = Some d ->
  rejects env h2 = true ->
  (exists later, history (snd item) = later ++ h3) /\
  (rejects env h3 = false ->
   executed (snd item) = [Retweet] /\
   (rejects env h4 = false -> rejects env h5 = false ->
    rejects env h6 = false -> rejects env h7 = false ->
    fst item = Normal (results ++ [{| tweetId := tweet_id t;
                                      parsedActions := d;
                                      executedActions := [Retweet] |}]) /\
    memories (snd item)
    = <[memoryKey env t := itemMemory env t roomId [Retweet]]> (memories w) /\
    mem_action (itemMemory env t roomId [Retweet]) = Some "retweet" /\
    history (snd item) = h7)).
Proof.
  cbv zeta. intros Hget Hnew Hcompose Hdecide Hd Hlike.
  match goal with
  | |- (exists later, history (snd ?r) = later ++ ?h3) /\ (?A -> executed (snd ?r) = _ /\ (?B4 -> ?B5 -> ?B6 -> ?B7 -> fst ?r = ?res /\ memories (snd ?r) = ?mem /\ ?tag /\ history (snd ?r) = ?h7)) =>
      change (wp (processTweet env t results)
                (fun c w' =>
                   (exists later, history w' = later ++ h3) /\
                   (A -> executed w' = [Retweet] /\
                         (B4 -> B5 -> B6 -> B7 ->
                          c = res /\ memories w' = mem /\ tag /\
                          history w' = h7))) w)
  end.
  unfold processTweet, executeActions. unfold_store.
  wp_run_with congruence.
  all: split;
    [ first [ exists []; reflexivity
            | eexists [_]; reflexivity
            | eexists [_; _]; reflexivity
            | eexists [_; _; _]; reflexivity
            | eexists [_; _; _; _]; reflexivity ]
    | intro Hretweet; try congruence ].
  all: split; [reflexivity |].
  all: intros E4 E5 E6 E7; cbn [mem_id itemMemory] in *; try congruence.
  repeat split; reflexivity.
Qed.

Lemma like_failure_does_not_block_retweet_witness :
  let item := processTweet LikeFails.env Scenario.t3 [] Scenario.emptyWorld in
  (exists later,
     history (snd item)
     = later ++ [RetweetCall "3"; LikeTweet "3"; GenerateTweetActions "3";
                 ComposeState; GetMemoryById "3-agent"]) /\
  executed (snd item) = [Retweet] /\
  fst item = Normal [{| tweetId := "3";
                        parsedActions := Scenario.likeRetweet;
                        executedActions := [Retweet] |}] /\
  memories (snd item)
  = {[ "3-agent" := itemMemory LikeFails.env Scenario.t3 "c-3-agent"
                      [Retweet] ]} /\
  mem_action (itemMemory LikeFails.env Scenario.t3 "c-3-agent" [Retweet])
  = Some "retweet".
Proof.
  destruct (like_failure_does_not_block_retweet LikeFails.env Scenario.t3 []
              Scenario.emptyWorld)
    as [Hattempt Hrecord]; try reflexivity.
  destruct (Hrecord eq_refl) as [Hexecuted Hstored].
  destruct (Hstored eq_refl eq_refl eq_refl eq_refl)
    as (Hentry & Hmem & Htag & _).
  split; [exact Hattempt |]. split; [exact Hexecuted |].
  split; [exact Hentry |]. split; [exact Hmem | exact Htag].
Defined.

(* ===================================================================== *)
(** ** A send response without the success indicator *)
(* ===================================================================== *)

(** [sendTweet] itself records nothing after a response without the
    result: no cache entry, no cached tweet, no memory. *)
Lemma sendTweet_bad_response_records_nothing env cleanedContent
    newTweetContent roomId (w : World) :
  let h := ResultJson :: SendTweet (JString cleanedContent) None false
             :: history w in
  rejects env (SendTweet (JString cleanedContent) None false :: history w)
    = false ->
  rejects env h = false ->
  responseBody env h = None ->
  sendTweet env cleanedContent newTweetContent roomId w
  = (Return tt, setHistory h w).
Proof.
  cbv zeta. intros Hsend Hjson Hbody.
  unfold sendTweet, bind, request. rewrite Hsend. cbn [history setHistory].
  rewrite Hjson. cbn [history setHistory]. rewrite Hbody. reflexivity.
Qed.

(** C3, at the failing input: the send response lacks the result. No
    memory is created and no tweet is cached, but [generateNewTweet] goes
    on to write the [lastPost] timestamp the schedule reads. *)
Theorem generateNewTweet_marks_unsent_post :
  let w' := snd (generateNewTweet BadResponse.env Scenario.emptyWorld) in
  memories w' = ∅ /\
  tweetCache w' = [] /\
  cache w' !! lastPostKey (TWITTER_USERNAME BadResponse.env)
  = Some (CVLastPost None 7000) /\
  rev (history w')
  = [MathRandom; EnsureUserExists "agent"; ComposeState; GenerateText;
     SendTweet (JString (str "hello")) None false; ResultJson; DateNow;
     CacheSet "twitter/bot/lastPost"].
Proof. vm_compute. repeat split. Qed.

(* ===================================================================== *)
(** ** Image generation without the plugin *)
(* ===================================================================== *)

(** C5, at the failing input: image generation is enabled and drawn and
    the plugin is absent. The cycle returns after the content is
    generated: nothing is sent, with or without an image. *)
Theorem generateNewTweet_without_plugin_publishes_nothing :
  let run := generateNewTweet NoImagePlugin.env Scenario.emptyWorld in
  drawImage NoImagePlugin.env (random NoImagePlugin.env [MathRandom]) = true /\
  fst run = Return tt /\
  rev (history (snd run))
  = [MathRandom; EnsureUserExists "agent"; ComposeState; GenerateText].
Proof. vm_compute. repeat split. Qed.

(** [sendTweet] starts with the send. *)
Lemma sendTweet_sends env cleanedContent newTweetContent roomId (w : World) :
  wp (sendTweet env cleanedContent newTweetContent roomId)
     (fun _ w' => In (SendTweet (JString cleanedContent) None false)
                     (history w')) w.
Proof.
  unfold sendTweet. unfold_store. wp_run; in_history.
Qed.

Ltac finish_send :=
  first
    [ left; assumption
    | right; split; [exact I | in_history]
    | wp_use sendTweet_sends;
      lazymatch goal with |- match ?c with _ => _ end => destruct c end;
      finish_send
    | progress wp_run; finish_send ].

(** When the image plugin is there, every failure on the image path (the
    handler rejecting, no data, the conversion failing, the send with the
    image rejecting) ends in a text-only send. *)
Lemma postWithImage_falls_back env content cleanedContent newTweetContent
    roomId (w : World) :
  imageActionHandler env = true ->
  wp (postWithImage env content cleanedContent newTweetContent roomId)
     (fun c w' =>
        In (SendTweet (JString cleanedContent) None false) (history w')
        \/ isNormal c /\
           In (SendTweet (JString content) None true) (history w')) w.
Proof.
  intro Hplugin. unfold postWithImage. rewrite Hplugin. cbn [negb].
  wp_run; finish_send.
Qed.

(* ===================================================================== *)
(** ** Empty quote content *)
(* ===================================================================== *)

(** C2, at the failing input: the first of two items is to be quoted and
    replied to and the quote content comes back empty. The run returns
    [undefined] there: no reply is attempted, no memory is created for the
    item, and the second item is never looked at. *)
Theorem empty_quote_content_ends_the_run :
  let run := processTweetActions EmptyQuote.env Scenario.emptyWorld in
  fst run = Return RUndefined /\
  memories (snd run) = ∅ /\
  rev (history (snd run))
  = [DateNow; EnsureUserExists "agent"; FetchTimelineForActions 15;
     GetMemoryById "7-agent"; ComposeState; GenerateTweetActions "7";
     BuildConversationThread "7"; ComposeState; GenerateText].
Proof. vm_compute. repeat split. Qed.

(** The sibling path: with the reply alone enabled and its content empty,
    only the reply is abandoned; the item is recorded and the next item
    is processed. *)
Example empty_reply_content_abandons_only_the_reply :
  let run := processTweetActions EmptyQuote.envReply Scenario.emptyWorld in
  fst run
  = Return (RResults [{| tweetId := "7";
                         parsedActions := EmptyQuote.replyOnly;
                         executedActions := [] |}]) /\
  (exists m, memories (snd run) !! "7-agent" = Some m /\
             mem_action m = Some "") /\
  In (GetMemoryById "8-agent") (history (snd run)).
Proof.
  vm_compute. split; [reflexivity |]. split; [eauto | tauto].
Qed.

(* ===================================================================== *)
(** ** Truncation *)
(* ===================================================================== *)

(** A text within the limit comes back unchanged. *)
Lemma truncateToCompleteSentence_short text maxTweetLength :
  Z.of_nat (length text) <= maxTweetLength ->
  truncateToCompleteSentence text maxTweetLength = text.
Proof.
  intro H. unfold truncateToCompleteSentence.
  destruct (Z.leb_spec (Z.of_nat (length text)) maxTweetLength); [reflexivity | lia].
Qed.

(** C6, at the failing input: the text is longer than the limit 3, has a
    period before the limit, at index 1, and another at index 3. The
    search starts at index 3, so all four units come back. *)
Theorem truncateToCompleteSentence_exceeds_limit :
  let text := str "a.b." in
  length text = 4%nat /\
  text !! 1%nat = Some period /\
  truncateToCompleteSentence text 3 = str "a.b." /\
  length (truncateToCompleteSentence text 3) = 4%nat.
Proof. vm_compute. repeat split. Qed.

Lemma lastIndexFrom_spec c (s : jsstring) k :
  Js.lastIndexFrom c s k = -1 \/
  (0 <= Js.lastIndexFrom c s k <= Z.of_nat k /\
   s !! Z.to_nat (Js.lastIndexFrom c s k) = Some c).
Proof.
  induction k as [| k IH]; cbn [Js.lastIndexFrom].
  - destruct (s !! 0%nat) as [d |] eqn:E; [| left; reflexivity].
    destruct (N.eqb_spec d c) as [-> | _]; [| left; reflexivity].
    right. split; [lia | exact E].
  - destruct (s !! S k) as [d |] eqn:E.
    + destruct (N.eqb_spec d c) as [-> | _].
      * right. split; [lia |]. rewrite Nat2Z.id. exact E.
      * destruct IH as [IH | [IH1 IH2]]; [left; exact IH | right].
        split; [lia | exact IH2].
    + destruct IH as [IH | [IH1 IH2]]; [left; exact IH | right].
      split; [lia | exact IH2].
Qed.

Lemma trimStart_length (s : jsstring) :
  (length (Js.trimStart s) <= length s)%nat.
Proof.
  induction s as [| c r IH]; cbn [Js.trimStart]; [lia |].
  destruct (Js.isWhiteSpace c); cbn [length]; lia.
Qed.

Lemma trimStart_snoc (s : jsstring) c :
  Js.isWhiteSpace c = false ->
  Js.trimStart (s ++ [c]) = Js.trimStart s ++ [c].
Proof.
  intro Hc. induction s as [| d r IH]; cbn [Js.trimStart app].
  - rewrite Hc. reflexivity.
  - destruct (Js.isWhiteSpace d); [exact IH | reflexivity].
Qed.

Lemma trim_snoc (s : jsstring) c :
  Js.isWhiteSpace c = false ->
  Js.trim (s ++ [c]) = Js.trimStart s ++ [c].
Proof.
  intro Hc. unfold Js.trim, Js.trimEnd.
  rewrite rev_app_distr. cbn [rev app Js.trimStart]. rewrite Hc.
  change (c :: rev s) with ([c] ++ rev s).
  rewrite rev_app_distr, rev_involutive. cbn [rev app].
  apply trimStart_snoc. exact Hc.
Qed.

(** Where the search for a period succeeds at index [i], the result is
    the text up to that period, without leading spaces: it ends at the
    period and has at most [i + 1] units. The start of the search is the
    limit itself, so [i] can be the limit and the result one unit longer
    than it. *)
Lemma truncateToCompleteSentence_at_period text maxTweetLength i :
  maxTweetLength < Z.of_nat (length text) ->
  Js.lastIndexOf period text maxTweetLength = i ->
  0 <= i ->
  exists body,
    truncateToCompleteSentence text maxTweetLength = body ++ [period] /\
    Z.of_nat (length (body ++ [period])) <= i + 1 /\
    i <= Z.max maxTweetLength 0.
Proof.
  intros Hlong Hidx Hi. unfold truncateToCompleteSentence.
  destruct (Z.leb_spec (Z.of_nat (length text)) maxTweetLength); [lia |].
  rewrite Hidx. unfold Js.lastIndexOf in Hidx.
  destruct (Z.eqb_spec (Z.of_nat (length text)) 0) as [E | Hne]; [lia |].
  set (k := Z.to_nat (Z.min (Z.max maxTweetLength 0)
                            (Z.of_nat (length text) - 1))) in Hidx.
  destruct (lastIndexFrom_spec period text k) as [Hno | [Hrange Hat]];
    rewrite Hidx in *; [lia |].
  assert (Hslice : Js.slice0 text (i + 1)
                   = take (Z.to_nat i) text ++ [period]).
  { unfold Js.slice0. destruct (Z.ltb_spec (i + 1) 0); [lia |].
    assert (Hlt : (Z.to_nat i < length text)%nat)
      by (apply lookup_lt_Some with (x := period); exact Hat).
    rewrite Z.min_l by lia.
    replace (Z.to_nat (i + 1)) with (S (Z.to_nat i)) by lia.
    apply take_S_r. exact Hat. }
  rewrite Hslice, trim_snoc by reflexivity.
  rewrite length_app. cbn [length]. rewrite Nat.add_1_r.
  exists (Js.trimStart (take (Z.to_nat i) text)). split; [reflexivity |].
  pose proof (trimStart_length (take (Z.to_nat i) text)) as Hlen.
  rewrite length_take in Hlen. rewrite length_app. cbn [length]. lia.
Qed.


(* ===================================================================== *)
(** ** More on truncation *)
(* ===================================================================== *)

Lemma trimEnd_length (s : jsstring) :
  (length (Js.trimEnd s) <= length s)%nat.
Proof.
  unfold Js.trimEnd. rewrite length_rev.
  pose proof (trimStart_length (rev s)) as H. rewrite length_rev in H. exact H.
Qed.

Lemma trim_length (s : jsstring) : (length (Js.trim s) <= length s)%nat.
Proof.
  unfold Js.trim. pose proof (trimStart_length (Js.trimEnd s)).
  pose proof (trimEnd_length s). lia.
Qed.

Lemma lastIndexFrom_absent c (s : jsstring) k :
  Forall (fun d => d <> c) s -> Js.lastIndexFrom c s k = -1.
Proof.
  intro Hs. rewrite Forall_forall in Hs.
  assert (Hno : forall i, s !! i <> Some c).
  { intros i E. eapply Hs; [| reflexivity].
    eapply list_elem_of_lookup_2. exact E. }
  induction k as [| k IH]; cbn [Js.lastIndexFrom].
  - destruct (s !! 0%nat) as [d |] eqn:E; [| reflexivity].
    destruct (N.eqb_spec d c) as [-> | _]; [| reflexivity].
    exfalso. exact (Hno _ E).
  - destruct (s !! S k) as [d |] eqn:E; [| exact IH].
    destruct (N.eqb_spec d c) as [-> | _]; [| exact IH].
    exfalso. exact (Hno _ E).
Qed.

Lemma lastIndexOf_absent c (s : jsstring) pos :
  Forall (fun d => d <> c) s -> Js.lastIndexOf c s pos = -1.
Proof.
  intro Hs. unfold Js.lastIndexOf.
  destruct (Z.of_nat (length s) =? 0); [reflexivity |].
  apply lastIndexFrom_absent. exact Hs.
Qed.

Lemma trimStart_no_space (s : jsstring) :
  Forall (fun d => Js.isWhiteSpace d = false) s -> Js.trimStart s = s.
Proof.
  intro Hs. destruct Hs as [| d r Hd Hr]; cbn [Js.trimStart]; [reflexivity |].
  rewrite Hd. reflexivity.
Qed.

Lemma trim_no_space (s : jsstring) :
  Forall (fun d => Js.isWhiteSpace d = false) s -> Js.trim s = s.
Proof.
  intro Hs. unfold Js.trim, Js.trimEnd.
  rewrite (trimStart_no_space (rev s)).
  - rewrite rev_involutive. apply trimStart_no_space. exact Hs.
  - apply List.Forall_rev. exact Hs.
Qed.

Lemma lastIndexOf_range c (s : jsstring) pos :
  Js.lastIndexOf c s pos = -1 \/
  (0 <= Js.lastIndexOf c s pos <= Z.max pos 0 /\
   Js.lastIndexOf c s pos < Z.of_nat (length s) /\
   s !! Z.to_nat (Js.lastIndexOf c s pos) = Some c).
Proof.
  unfold Js.lastIndexOf.
  destruct (Z.eqb_spec (Z.of_nat (length s)) 0) as [E | Hne];
    [left; reflexivity |].
  set (k := Z.to_nat (Z.min (Z.max pos 0) (Z.of_nat (length s) - 1))).
  destruct (lastIndexFrom_spec c s k) as [Hno | [Hrange Hat]];
    [left; exact Hno | right].
  split; [lia |]. split; [| exact Hat].
  apply lookup_lt_Some in Hat. lia.
Qed.

Lemma slice0_take (s : jsstring) e :
  0 <= e <= Z.of_nat (length s) -> Js.slice0 s e = take (Z.to_nat e) s.
Proof.
  intro H. unfold Js.slice0. destruct (Z.ltb_spec e 0); [lia |].
  rewrite Z.min_l by lia. reflexivity.
Qed.

Lemma slice0_zero (s : jsstring) : Js.slice0 s 0 = [].
Proof.
  unfold Js.slice0. cbn [Z.ltb Z.compare].
  rewrite Z.min_l by lia. reflexivity.
Qed.

Lemma ellipsis_snoc (s : jsstring) :
  s ++ ellipsis = (s ++ [period; period]) ++ [period].
Proof. rewrite <- app_assoc. reflexivity. Qed.

(** Whatever the text, a truncated result ends with a period: the one the
    sentence search found, or the last of the ellipsis. *)
Theorem truncateToCompleteSentence_ends_with_period text maxTweetLength :
  maxTweetLength < Z.of_nat (length text) ->
  exists body, truncateToCompleteSentence text maxTweetLength = body ++ [period].
Proof.
  intro Hlong.
  destruct (lastIndexOf_range period text maxTweetLength)
    as [Hno | (Hrange & _ & _)].
  - unfold truncateToCompleteSentence.
    destruct (Z.leb_spec (Z.of_nat (length text)) maxTweetLength); [lia |].
    rewrite Hno. change (-1 + 1) with 0. rewrite slice0_zero.
    change (Js.trim []) with (@nil N). cbn [length Nat.ltb Nat.leb].
    match goal with |- context [if ?b then _ else _] => destruct b end;
      rewrite ellipsis_snoc; eauto.
  - destruct (truncateToCompleteSentence_at_period text maxTweetLength _
                Hlong eq_refl (proj1 Hrange)) as (body & Hbody & _).
    eauto.
Qed.

Lemma truncateToCompleteSentence_ends_with_period_witness :
  exists body,
    truncateToCompleteSentence (str "one two three four") 9 = body ++ [period].
Proof.
  apply truncateToCompleteSentence_ends_with_period. vm_compute. reflexivity.
Defined.

(** Without a period in reach, the text is cut at the last space at or
    before the limit, unless all before that space is blank: the words up
    to it, then the ellipsis; at most three units over the index of the
    space. *)
Theorem truncateToCompleteSentence_at_space text maxTweetLength j :
  maxTweetLength < Z.of_nat (length text) ->
  Js.lastIndexOf period text maxTweetLength = -1 ->
  Js.lastIndexOf space text maxTweetLength = j ->
  0 <= j ->
  Js.trim (take (Z.to_nat j) text) <> [] ->
  truncateToCompleteSentence text maxTweetLength
  = Js.trim (take (Z.to_nat j) text) ++ ellipsis /\
  Z.of_nat (length (truncateToCompleteSentence text maxTweetLength)) <= j + 3 /\
  j <= Z.max maxTweetLength 0.
Proof.
  intros Hlong Hno Hj Hpos Hwords.
  destruct (lastIndexOf_range space text maxTweetLength)
    as [E | (Hrange & Hlt & _)]; rewrite Hj in *; [lia |].
  unfold truncateToCompleteSentence.
  destruct (Z.leb_spec (Z.of_nat (length text)) maxTweetLength); [lia |].
  rewrite Hno, Hj. change (-1 + 1) with 0. rewrite slice0_zero.
  change (Js.trim []) with (@nil N). cbn [length Nat.ltb Nat.leb].
  rewrite slice0_take by lia.
  destruct (Js.trim (take (Z.to_nat j) text)) as [| c r] eqn:E;
    [contradiction |].
  cbn [length Nat.ltb Nat.leb]. split; [reflexivity |]. split; [| lia].
  pose proof (trim_length (take (Z.to_nat j) text)) as Hlen.
  rewrite E, length_take in Hlen. rewrite length_app.
  change (length ellipsis) with 3%nat. cbn [length] in *. lia.
Qed.

Lemma truncateToCompleteSentence_at_space_witness :
  truncateToCompleteSentence (str "one two three four") 9
  = Js.trim (take (Z.to_nat 7) (str "one two three four")) ++ ellipsis /\
  Z.of_nat (length (truncateToCompleteSentence (str "one two three four") 9))
  <= 7 + 3 /\
  7 <= Z.max 9 0.
Proof.
  apply truncateToCompleteSentence_at_space;
    [vm_compute; reflexivity | reflexivity | reflexivity | lia
    | vm_compute; discriminate].
Defined.

(** A text without a period and without any space never reaches the hard
    cut: the search for a space gives -1, the slice drops the last unit
    only, and the result is two units longer than the text. *)
Theorem truncateToCompleteSentence_single_word text maxTweetLength :
  maxTweetLength < Z.of_nat (length text) ->
  (2 <= length text)%nat ->
  Forall (fun c => c <> period) text ->
  Forall (fun c => Js.isWhiteSpace c = false) text ->
  truncateToCompleteSentence text maxTweetLength
  = take (length text - 1) text ++ ellipsis /\
  length (truncateToCompleteSentence text maxTweetLength)
  = (length text + 2)%nat.
Proof.
  intros Hlong Hlen Hperiod Hspace.
  assert (Hnospace : Forall (fun c => c <> space) text).
  { eapply Forall_impl; [exact Hspace |]. intros c Hc ->. discriminate. }
  assert (Hcut : Js.trim (Js.slice0 text (-1)) = take (length text - 1) text).
  { unfold Js.slice0. cbn [Z.ltb Z.compare].
    rewrite Z.max_l by lia.
    replace (Z.to_nat (Z.of_nat (length text) + -1)) with (length text - 1)%nat
      by lia.
    apply trim_no_space. apply Forall_take. exact Hspace. }
  unfold truncateToCompleteSentence.
  destruct (Z.leb_spec (Z.of_nat (length text)) maxTweetLength); [lia |].
  rewrite (lastIndexOf_absent period) by exact Hperiod.
  rewrite (lastIndexOf_absent space) by exact Hnospace.
  change (-1 + 1) with 0. rewrite slice0_zero.
  change (Js.trim []) with (@nil N). cbn [length Nat.ltb Nat.leb].
  rewrite Hcut.
  assert (Hl : length (take (length text - 1) text) = (length text - 1)%nat)
    by (rewrite length_take; lia).
  destruct (take (length text - 1) text) as [| c r] eqn:E;
    [cbn [length] in Hl; lia |].
  cbn [Nat.ltb Nat.leb length]. split; [reflexivity |].
  rewrite length_app. change (length ellipsis) with 3%nat.
  cbn [length] in *. lia.
Qed.

Lemma truncateToCompleteSentence_single_word_witness :
  truncateToCompleteSentence (str "Helloworld") 5
  = take (length (str "Helloworld") - 1) (str "Helloworld") ++ ellipsis /\
  length (truncateToCompleteSentence (str "Helloworld") 5)
  = (length (str "Helloworld") + 2)%nat.
Proof.
  apply truncateToCompleteSentence_single_word.
  - vm_compute. reflexivity.
  - vm_compute. lia.
  - repeat constructor; discriminate.
  - repeat constructor.
Defined.

Lemma truncateToCompleteSentence_at_period_witness :
  exists body,
    truncateToCompleteSentence (str "Hello world. Bye now") 15
    = body ++ [period] /\
    Z.of_nat (length (body ++ [period])) <= 11 + 1 /\
    11 <= Z.max 15 0.
Proof.
  apply truncateToCompleteSentence_at_period;
    [vm_compute; reflexivity | reflexivity | lia].
Defined.

Lemma slice0_length_le (s : jsstring) e :
  0 <= e -> Z.of_nat (length (Js.slice0 s e)) <= e.
Proof.
  intro He. unfold Js.slice0. destruct (Z.ltb_spec e 0); [lia |].
  rewrite length_take. lia.
Qed.

(** [trimTweetLength] keeps within a limit of at least 3 whenever it has
    something to cut at: the text is short enough, or the first
    [maxLength] units hold a period past index 0, or there is a space at
    or before index [maxLength - 3]. *)
Theorem trimTweetLength_within_limit text maxLength :
  3 <= maxLength ->
  Z.of_nat (length text) <= maxLength
  \/ 0 < Js.lastIndexOfEnd period (Js.slice0 text maxLength)
  \/ 0 <= Js.lastIndexOf space text (maxLength - 3) ->
  Z.of_nat (length (trimTweetLength text maxLength)) <= maxLength.
Proof.
  intros Hmax Hcut. unfold trimTweetLength.
  destruct (Z.leb_spec (Z.of_nat (length text)) maxLength) as [| Hlong];
    [assumption |].
  destruct (Z.ltb_spec 0 (Js.lastIndexOfEnd period (Js.slice0 text maxLength)))
    as [Hls | Hls].
  - unfold Js.lastIndexOfEnd in *.
    destruct (lastIndexOf_range period (Js.slice0 text maxLength)
                (Z.of_nat (length (Js.slice0 text maxLength))))
      as [E | (_ & Hlt & _)]; [lia |].
    pose proof (slice0_length_le text maxLength ltac:(lia)) as Hslice.
    pose proof (trim_length
                  (Js.slice0 text
                     (Js.lastIndexOf period (Js.slice0 text maxLength)
                        (Z.of_nat (length (Js.slice0 text maxLength))) + 1)))
      as Htrim.
    pose proof (slice0_length_le text
                  (Js.lastIndexOf period (Js.slice0 text maxLength)
                     (Z.of_nat (length (Js.slice0 text maxLength))) + 1)
                  ltac:(lia)) as Hcutlen.
    lia.
  - destruct Hcut as [Hshort | [Hsentence | Hspace]]; [lia | lia |].
    destruct (lastIndexOf_range space text (maxLength - 3))
      as [E | (Hrange & _ & _)]; [lia |].
    pose proof (trim_length
                  (Js.slice0 text (Js.lastIndexOf space text (maxLength - 3))))
      as Htrim.
    pose proof (slice0_length_le text
                  (Js.lastIndexOf space text (maxLength - 3)) Hspace)
      as Hcutlen.
    rewrite length_app. change (length ellipsis) with 3%nat. lia.
Qed.

Lemma trimTweetLength_within_limit_witness :
  Z.of_nat (length (trimTweetLength (str "one two three four") 12)) <= 12.
Proof.
  apply trimTweetLength_within_limit; [lia |].
  right. right. vm_compute. discriminate.
Defined.

(* ===================================================================== *)
(** ** More on the content cleaning *)
(* ===================================================================== *)

Lemma parseChars_plain (s rest acc : jsstring) :
  forallb isPlain s = true ->
  Json.parseChars (s ++ Json.quote :: rest) acc = Some (rev acc ++ s, rest).
Proof.
  revert acc. induction s as [| c s IH]; intros acc Hs.
  - cbn. rewrite app_nil_r. reflexivity.
  - cbn [forallb] in Hs. apply andb_prop in Hs as [Hc Hs].
    unfold isPlain in Hc. apply andb_prop in Hc as [Hc H92].
    apply andb_prop in Hc as [H32 H34].
    cbn [app Json.parseChars]. unfold Json.quote, Json.backslash in *.
    destruct (c =? 34)%N; [discriminate |].
    destruct (c =? 92)%N; [discriminate |].
    destruct (N.ltb_spec c 32) as [Hlt | _];
      [apply N.leb_le in H32; lia |].
    rewrite IH by exact Hs. cbn [rev]. rewrite <- app_assoc. reflexivity.
Qed.

Lemma parseValue_wrapText (s : jsstring) fuel :
  forallb isPlain s = true ->
  Json.parseValue (S (S (S fuel))) (wrapText s)
  = Some (JObject [(textKey, JString s)], []).
Proof.
  intro Hs.
  change (wrapText s)
    with (123 :: 34 :: 116 :: 101 :: 120 :: 116 :: 34 :: 58 :: 32 :: 34
            :: s ++ [34; 125])%N.
  change textKey with [116; 101; 120; 116]%N.
  simpl.
  change (s ++ [34; 125])%N with (s ++ Json.quote :: [125])%N.
  rewrite parseChars_plain by exact Hs. reflexivity.
Qed.

Lemma parse_wrapText (s : jsstring) :
  forallb isPlain s = true ->
  Json.parse (wrapText s) = Some (JObject [(textKey, JString s)]).
Proof.
  intro Hs. unfold Json.parse.
  assert (Hfuel : exists fuel,
             (2 * length (wrapText s) + 2)%nat = S (S (S fuel))).
  { exists (2 * length (wrapText s) - 1)%nat.
    assert (0 < length (wrapText s))%nat by (cbn; lia). lia. }
  destruct Hfuel as [fuel ->].
  rewrite parseValue_wrapText by exact Hs. reflexivity.
Qed.

(** A response that is the JSON object with the one member [text] comes
    out as that text, whatever the text, as long as its units need no
    escaping. *)
Theorem extractContent_wrapped (s : jsstring) :
  forallb isPlain s = true ->
  Clean.extractContent (wrapText s) = JString s.
Proof.
  intro Hs. unfold Clean.extractContent. rewrite parse_wrapText by exact Hs.
  assert (Hget : Json.getMember (JObject [(textKey, JString s)]) textKey
                 = Some (JString s)).
  { unfold Json.getMember. cbn [rev app].
    rewrite filter_cons_True; [reflexivity |].
    cbn [fst]. unfold Json.jsstring_eqb.
    rewrite bool_decide_eq_true_2 by reflexivity. exact I. }
  rewrite Hget. cbn [Json.truthyOpt Json.truthy].
  destruct s as [| c r]; reflexivity.
Qed.

Lemma extractContent_wrapped_witness :
  Clean.extractContent (wrapText (str "good morning, world"))
  = JString (str "good morning, world").
Proof. apply extractContent_wrapped. vm_compute. reflexivity. Defined.

Lemma trimStart_forallb (P : N -> bool) (s : jsstring) :
  forallb P s = true -> forallb P (Js.trimStart s) = true.
Proof.
  induction s as [| c r IH]; intro H; cbn [Js.trimStart]; [exact H |].
  destruct (Js.isWhiteSpace c); [| exact H].
  cbn [forallb] in H. apply andb_prop in H as [_ H]. auto.
Qed.

Lemma expect_forallb (P : N -> bool) c (s : jsstring) :
  forallb P s = true ->
  forallb P (match Json.expect c s with Some r => r | None => s end) = true.
Proof.
  intro H. destruct s as [| x r]; cbn [Json.expect]; [exact H |].
  destruct (x =? c)%N; [| exact H].
  cbn [forallb] in H. apply andb_prop in H as [_ H]. exact H.
Qed.

Lemma expect_quote_unquoted (s : jsstring) :
  forallb isUnquoted s = true -> Json.expect Json.quote s = None.
Proof.
  intro H. destruct s as [| x r]; cbn [Json.expect]; [reflexivity |].
  cbn [forallb] in H. apply andb_prop in H as [Hx _].
  unfold isUnquoted in Hx. unfold Json.quote.
  destruct (x =? 34)%N; [discriminate | reflexivity].
Qed.

Lemma startsWith_quote_unquoted (p s : jsstring) :
  forallb isUnquoted s = true -> Js.startsWith (Json.quote :: p) s = None.
Proof.
  intro H. destruct s as [| x r]; cbn [Js.startsWith]; [reflexivity |].
  cbn [forallb] in H. apply andb_prop in H as [Hx _].
  unfold isUnquoted in Hx. unfold Json.quote. rewrite N.eqb_sym.
  destruct (x =? 34)%N; [discriminate | reflexivity].
Qed.

Lemma replacePair_absent a b r (s : jsstring) :
  forallb (fun c => negb (c =? a)%N) s = true -> Js.replacePair a b r s = s.
Proof.
  induction s as [| x t IH]; intro H; [reflexivity |].
  cbn [forallb] in H. apply andb_prop in H as [Hx Ht].
  cbn [Js.replacePair]. destruct t as [| y u]; [reflexivity |].
  destruct (x =? a)%N; [discriminate |]. cbn [andb].
  rewrite IH by exact Ht. reflexivity.
Qed.

Lemma forallb_rev_true (P : N -> bool) (s : jsstring) :
  forallb P s = true -> forallb P (rev s) = true.
Proof.
  induction s as [| c r IH]; intro H; [exact H |].
  cbn [forallb] in H. apply andb_prop in H as [Hc Hr].
  cbn [rev]. rewrite forallb_app, IH by exact Hr. cbn [forallb].
  rewrite Hc. reflexivity.
Qed.

Lemma unquoted_no_backslash (s : jsstring) :
  forallb isUnquoted s = true ->
  forallb (fun c => negb (c =? Json.backslash)%N) s = true.
Proof.
  induction s as [| c r IH]; intro H; [reflexivity |].
  cbn [forallb] in *. apply andb_prop in H as [Hc Hr].
  rewrite IH by exact Hr. unfold isUnquoted in Hc. unfold Json.backslash.
  destruct (c =? 92)%N; [| reflexivity].
  rewrite andb_false_r in Hc. discriminate.
Qed.

Lemma cleanRaw_unquoted (s : jsstring) :
  forallb isUnquoted s = true -> Clean.cleanRaw s = Js.trim s.
Proof.
  intro Hs. unfold Clean.cleanRaw.
  assert (Hwrap : Clean.stripWrapper s = s).
  { unfold Clean.stripWrapper.
    assert (Hhead : Clean.matchWrapperHead s = None).
    { unfold Clean.matchWrapperHead.
      rewrite startsWith_quote_unquoted; [reflexivity |].
      apply trimStart_forallb, expect_forallb, trimStart_forallb, Hs. }
    rewrite Hhead. unfold Clean.stripWrapperTail.
    rewrite expect_quote_unquoted; [reflexivity |].
    apply trimStart_forallb, expect_forallb, trimStart_forallb,
      forallb_rev_true, Hs. }
  assert (Hquotes : Clean.removeQuotes s = s).
  { unfold Clean.removeQuotes. destruct s as [| a r]; [reflexivity |].
    destruct (rev r) as [| z m]; [reflexivity |].
    cbn [forallb] in Hs. apply andb_prop in Hs as [Ha _].
    unfold isUnquoted in Ha. unfold Clean.isQuoteMark.
    destruct (a =? 34)%N; [discriminate |].
    destruct (a =? 39)%N; [discriminate | reflexivity]. }
  rewrite Hwrap, Hquotes. unfold Clean.unescapeQuotes, Clean.fixNewLines.
  rewrite (replacePair_absent _ _ _ s)
    by (apply unquoted_no_backslash; exact Hs).
  rewrite (replacePair_absent _ _ _ s)
    by (apply unquoted_no_backslash; exact Hs).
  reflexivity.
Qed.

(** A response that is not JSON and has no quote marks and no backslashes
    comes out as it is, without the blanks around it. *)
Theorem extractContent_bare (s : jsstring) :
  Json.parse s = None ->
  forallb isUnquoted s = true ->
  Clean.extractContent s = JString (Js.trim s).
Proof.
  intros Hparse Hs. unfold Clean.extractContent. rewrite Hparse.
  rewrite cleanRaw_unquoted by exact Hs. reflexivity.
Qed.

Lemma extractContent_bare_witness :
  Clean.extractContent (str "  The tide keeps its own hours.  ")
  = JString (Js.trim (str "  The tide keeps its own hours.  ")).
Proof. apply extractContent_bare; vm_compute; reflexivity. Defined.

(* ===================================================================== *)
(** ** More on the post-generation cycle *)
(* ===================================================================== *)

(** In a dry run the cycle generates and cleans the content and stops
    there: nothing is sent, cached or stored. *)
Theorem generateNewTweet_dry_run env (w : World) :
  TWITTER_DRY_RUN env = true ->
  nothingRecorded w (snd (generateNewTweet env w)).
Proof.
  intro Hdry.
  change (wp (generateNewTweet env) (fun _ w' => nothingRecorded w w') w).
  unfold generateNewTweet. wp_run. all: nothing_recorded.
Qed.

Lemma generateNewTweet_dry_run_witness :
  nothingRecorded Scenario.emptyWorld
    (snd (generateNewTweet DryRun.env Scenario.emptyWorld)).
Proof. apply generateNewTweet_dry_run. reflexivity. Defined.

Lemma generateNewTweet_without_setting env (w : World) :
  IMAGE_GEN env = None -> generateNewTweet env w = (Throw TypeError, w).
Proof. intro H. unfold generateNewTweet. rewrite H. reflexivity. Qed.

(** [generateNewTweet] throws exactly when the [IMAGE_GEN] setting is
    missing: then it is the [TypeError] of the first statement, thrown
    before any call; with the setting there, every error is caught
    inside. *)
Theorem generateNewTweet_throws_only_without_setting env (w : World) :
  match IMAGE_GEN env with
  | None => generateNewTweet env w = (Throw TypeError, w)
  | Some _ => forall e, fst (generateNewTweet env w) <> Throw e
  end.
Proof.
  unfold generateNewTweet. destruct (IMAGE_GEN env) as [s |]; [| reflexivity].
  intro e. unfold bind at 1. unfold ret at 1. unfold bind at 1.
  unfold mathRandom at 1. unfold try_catch at 1.
  match goal with
  | |- context [match ?body ?w0 with _ => _ end] =>
      destruct (body w0) as [[a | r | e'] w1]
  end; cbn; discriminate.
Qed.

(** [sendTweet] leaves the model provider alone. *)
Lemma sendTweet_keeps_provider env cleanedContent newTweetContent roomId
    (w : World) :
  wp (sendTweet env cleanedContent newTweetContent roomId)
     (fun _ w' => modelProvider w' = modelProvider w) w.
Proof.
  unfold sendTweet. unfold_store. wp_run; reflexivity.
Qed.

Ltac finish_provider :=
  first
    [ reflexivity
    | assumption
    | wp_use sendTweet_keeps_provider;
      lazymatch goal with |- match ?c with _ => _ end => destruct c end;
      finish_provider
    | progress wp_run; finish_provider ].

(** The model provider that [generateNewTweet] swaps for the image
    handler is back in place when the cycle ends, on every path. *)
Theorem generateNewTweet_restores_provider env (w : World) :
  modelProvider (snd (generateNewTweet env w)) = modelProvider w.
Proof.
  change (wp (generateNewTweet env)
             (fun _ w' => modelProvider w' = modelProvider w) w).
  unfold generateNewTweet, postWithImage. unfold_store.
  wp_run; finish_provider.
Qed.

(** A text-only cycle in which every call resolves and the platform
    confirms the post. What is sent is the cleaned content, truncated;
    what is stored as the memory of the post is the raw model response,
    trimmed; the tweet is cached and [lastPost] is written. *)
Theorem generateNewTweet_records_publish env (w : World) s raw c tr lg :
  IMAGE_GEN env = Some s ->
  toLowerCase s <> "true" ->
  TWITTER_DRY_RUN env = false ->
  (forall h, rejects env h = false) ->
  (forall h, modelText env h = raw) ->
  Clean.extractContent raw = JString c ->
  c <> [] ->
  (forall h, responseBody env h = Some tr) ->
  legacy tr = Some lg ->
  let posted :=
    Clean.removeQuotes
      (Clean.fixNewLines (truncateToCompleteSentence c (maxTweetLength env))) in
  let w' := snd (generateNewTweet env w) in
  In (SendTweet (JString posted) None false) (history w') /\
  (exists m,
     memories w' !! stringToUuid env (rest_id tr +:+ "-" +:+ agentId env)
     = Some m /\
     mem_text m = Js.trim raw /\ mem_action m = None /\
     mem_createdAt m = created_at lg) /\
  tweetCache w' = rest_id tr :: tweetCache w /\
  exists t,
    cache w' !! lastPostKey (TWITTER_USERNAME env) = Some (CVLastPost None t).
Proof.
  intros Himg Hoff Hdry Hrej Hraw Hclean Hc Hbody Hlegacy. cbv zeta.
  change (wp (generateNewTweet env)
            (fun _ w' =>
               In (SendTweet
                     (JString
                        (Clean.removeQuotes
                           (Clean.fixNewLines
                              (truncateToCompleteSentence c
                                 (maxTweetLength env))))) None false)
                  (history w') /\
               (exists m,
                  memories w'
                    !! stringToUuid env (rest_id tr +:+ "-" +:+ agentId env)
                  = Some m /\
                  mem_text m = Js.trim raw /\ mem_action m = None /\
                  mem_createdAt m = created_at lg) /\
               tweetCache w' = rest_id tr :: tweetCache w /\
               exists t,
                 cache w' !! lastPostKey (TWITTER_USERNAME env)
                 = Some (CVLastPost None t)) w).
  destruct c as [| c0 cr]; [contradiction |].
  unfold generateNewTweet, sendTweet. unfold_store.
  rewrite Himg. rewrite (bool_decide_eq_false_2 _ Hoff).
  wp_run_with ltac:(first
    [ rewrite Hrej in *; discriminate
    | progress (rewrite ?Hraw, ?Hclean, ?Hbody, ?Hlegacy in * );
      cbn [Json.truthy length Nat.eqb negb andb] in * ]).
  split; [in_history |]. split.
  - eexists. split; [apply lookup_insert_eq |]. repeat split.
  - split; [reflexivity |]. eexists. apply lookup_insert_eq.
Qed.

Lemma generateNewTweet_records_publish_witness :
  let w' := snd (generateNewTweet Published.env Scenario.emptyWorld) in
  In (SendTweet (JString (str "Tides turn. Boats wait.")) None false)
     (history w') /\
  (exists m,
     memories w' !! "900-agent" = Some m /\
     mem_text m = Published.raw /\ mem_action m = None /\
     mem_createdAt m = 1700000000) /\
  tweetCache w' = ["900"] /\
  exists t, cache w' !! "twitter/bot/lastPost" = Some (CVLastPost None t).
Proof.
  pose proof (generateNewTweet_records_publish Published.env
                Scenario.emptyWorld "FALSE" Published.raw
                (str "Tides turn. Boats wait.") _ _
                eq_refl ltac:(vm_compute; discriminate) eq_refl
                (fun _ => eq_refl) (fun _ => eq_refl)
                ltac:(vm_compute; reflexivity) ltac:(discriminate)
                (fun _ => eq_refl) eq_refl) as H.
  exact H.
Defined.

(* ===================================================================== *)
(** ** More on the posting schedule *)
(* ===================================================================== *)

(** For a draw in [0, 1) and [minMinutes <= maxMinutes] the interval lies
    in the inclusive range; for equal bounds it is that bound. *)
Theorem randomMinutesOf_in_range (r : Q) minMinutes maxMinutes :
  (0 <= r)%Q -> (r < 1)%Q -> minMinutes <= maxMinutes ->
  minMinutes <= randomMinutesOf r minMinutes maxMinutes <= maxMinutes.
Proof.
  intros H0 H1 Hle. unfold randomMinutesOf.
  set (n := maxMinutes - minMinutes + 1).
  assert (Hn : 0 < n) by (unfold n; lia).
  assert (Hnq : (inject_Z 0 < inject_Z n)%Q) by (rewrite <- Zlt_Qlt; exact Hn).
  change (inject_Z 0) with 0%Q in Hnq.
  assert (Hlow : 0 <= Qfloor (r * inject_Z n)).
  { change 0 with (Qfloor 0). apply Qfloor_resp_le.
    apply Qmult_le_0_compat; [exact H0 | apply Qlt_le_weak; exact Hnq]. }
  assert (Hhigh : Qfloor (r * inject_Z n) < n).
  { rewrite Zlt_Qlt. eapply Qle_lt_trans; [apply Qfloor_le |].
    apply Qlt_le_trans with (1 * inject_Z n)%Q;
      [apply Qmult_lt_compat_r; assumption |].
    rewrite Qmult_1_l. apply Qle_refl. }
  unfold n in *. lia.
Qed.

Lemma randomMinutesOf_in_range_witness :
  90 <= randomMinutesOf (3 # 4) 90 180 <= 180.
Proof.
  apply randomMinutesOf_in_range; [discriminate | reflexivity | lia].
Defined.

(** A tick of the posting schedule never throws and never returns early:
    whatever the collaborators do, [generateNewTweetLoop] runs to its
    end. *)
Theorem generateNewTweetLoop_completes env (w : World) :
  fst (generateNewTweetLoop env w) = Normal tt.
Proof.
  change (wp (generateNewTweetLoop env) (fun c _ => c = Normal tt) w).
  unfold generateNewTweetLoop, generateNewTweetLoopBody. unfold_store.
  wp_run; try reflexivity.
  apply wp_any. intros c w1 _. destruct c; wp_run; reflexivity.
Qed.

(** A due check with the [IMAGE_GEN] setting missing: the cycle throws,
    the tick catches it, and no schedule is written. *)
Theorem generateNewTweetLoop_unset_image_setting env (w : World) :
  IMAGE_GEN env = None ->
  let h := MathRandom :: CacheGet (lastPostKey (TWITTER_USERNAME env))
             :: history w in
  let last :=
    lastPostTimestampOf (cache w !! lastPostKey (TWITTER_USERNAME env)) in
  let interval :=
    randomMinutesOf (random env h) (orDefault (POST_INTERVAL_MIN env) 90)
                    (orDefault (POST_INTERVAL_MAX env) 180) in
  last + interval * 60 * 1000 <= clock env (DateNow :: h) ->
  cache (snd (generateNewTweetLoop env w)) = cache w /\
  forall c, In c (history (snd (generateNewTweetLoop env w))) ->
            In c (history w) \/ isScheduleCall c = true.
Proof.
  intros Himg h last interval Hdue. subst h last interval.
  apply Z.leb_le in Hdue.
  change (wp (generateNewTweetLoop env)
            (fun _ w' =>
               cache w' = cache w /\
               forall c, In c (history w') ->
                         In c (history w) \/ isScheduleCall c = true) w).
  unfold generateNewTweetLoop, generateNewTweetLoopBody. unfold_store.
  wp_run.
  - split; [reflexivity |]. intros c [<- | Hc]; auto.
  - unfold wp. rewrite (generateNewTweet_without_setting env _ Himg).
    cbn [fst snd].
    wp_run. split; [reflexivity |].
    intros c [<- | [<- | [<- | [<- | Hc]]]]; auto.
Qed.

Lemma generateNewTweetLoop_unset_image_setting_witness :
  let w' := snd (generateNewTweetLoop DueWithoutSetting.env
                   Scenario.emptyWorld) in
  cache w' = cache Scenario.emptyWorld /\
  forall c, In c (history w') ->
            In c (history Scenario.emptyWorld) \/ isScheduleCall c = true.
Proof.
  apply (generateNewTweetLoop_unset_image_setting DueWithoutSetting.env
           Scenario.emptyWorld); [reflexivity | vm_compute; discriminate].
Defined.

(** A check that is not yet due generates nothing: its calls are the
    cache read, the draw, the clock and the cache write at most, and the
    memory store and the tweet cache stay as they are. *)
Theorem generateNewTweetLoop_not_due env (w : World) :
  let h := MathRandom :: CacheGet (lastPostKey (TWITTER_USERNAME env))
             :: history w in
  let last :=
    lastPostTimestampOf (cache w !! lastPostKey (TWITTER_USERNAME env)) in
  let interval :=
    randomMinutesOf (random env h) (orDefault (POST_INTERVAL_MIN env) 90)
                    (orDefault (POST_INTERVAL_MAX env) 180) in
  clock env (DateNow :: h) < last + interval * 60 * 1000 ->
  let w' := snd (generateNewTweetLoop env w) in
  (exists pre, history w' = pre ++ history w /\
               forallb isScheduleCall pre = true) /\
  memories w' = memories w /\ tweetCache w' = tweetCache w.
Proof.
  intros h last interval Hnot. subst h last interval. cbv zeta.
  apply Z.ltb_lt in Hnot. rewrite Z.ltb_antisym in Hnot.
  apply negb_true_iff in Hnot.
  change (wp (generateNewTweetLoop env)
            (fun _ w' =>
               (exists pre, history w' = pre ++ history w /\
                            forallb isScheduleCall pre = true) /\
               memories w' = memories w /\ tweetCache w' = tweetCache w) w).
  unfold generateNewTweetLoop, generateNewTweetLoopBody. unfold_store.
  wp_run.
  all: split; [| split; reflexivity].
  - exists [CacheGet (lastPostKey (TWITTER_USERNAME env))]. split; reflexivity.
  - exists [CacheSet (nextTweetTimeKey env); DateNow; MathRandom;
            CacheGet (lastPostKey (TWITTER_USERNAME env))].
    split; reflexivity.
  - exists [CacheSet (nextTweetTimeKey env); DateNow; MathRandom;
            CacheGet (lastPostKey (TWITTER_USERNAME env))].
    split; reflexivity.
Qed.

Lemma generateNewTweetLoop_not_due_witness :
  let w' := snd (generateNewTweetLoop NotYetDue.env Scenario.emptyWorld) in
  (exists pre, history w' = pre ++ history Scenario.emptyWorld /\
               forallb isScheduleCall pre = true) /\
  memories w' = memories Scenario.emptyWorld /\
  tweetCache w' = tweetCache Scenario.emptyWorld.
Proof.
  apply (generateNewTweetLoop_not_due NotYetDue.env Scenario.emptyWorld).
  vm_compute. reflexivity.
Defined.

Lemma sendTweet_bad_response_records_nothing_witness :
  sendTweet BadResponse.env (str "hello") (str "hello") "room"
            Scenario.emptyWorld
  = (Return tt,
     setHistory [ResultJson; SendTweet (JString (str "hello")) None false]
                Scenario.emptyWorld).
Proof.
  apply (sendTweet_bad_response_records_nothing BadResponse.env);
    reflexivity.
Defined.

(* ===================================================================== *)
(** ** More on the action pipeline *)
(* ===================================================================== *)

Section Pipeline.

Variable env : Env.

Lemma describeImages_frame {R} photos (w : World) :
  wp (describeImages (R:=R) env photos)
     (fun c w' => notReturn c /\ memories w' = memories w /\
                  executed w' = executed w) w.
Proof.
  revert w. induction photos as [| url rest IH]; intro w; cbn [describeImages].
  - wp_run. repeat split.
  - wp_run.
    + repeat split.
    + wp_use IH. destruct c; tauto.
Qed.

Lemma composeEnrichedState_frame {R} t (w : World) :
  wp (composeEnrichedState (R:=R) env t)
     (fun c w' => notReturn c /\ memories w' = memories w /\
                  executed w' = executed w) w.
Proof.
  unfold composeEnrichedState. wp_run.
  - repeat split.
  - wp_use describeImages_frame. destruct H0 as (Hc & Hm & He).
    destruct c; try tauto; wp_run; repeat split; assumption.
Qed.

Lemma quoteTweet_frame t (w : World) :
  wp (quoteTweet env t)
     (fun c w' =>
        match c with Return r => r = RUndefined | _ => True end /\
        memories w' = memories w /\
        (executed w' = executed w \/ executed w' = executed w ++ [Quote])) w.
Proof.
  unfold quoteTweet, generateTweetContent. unfold_store. wp_run.
  wp_use composeEnrichedState_frame. destruct H as (Hc & Hm & He).
  destruct c; [| exfalso; exact Hc |]; wp_run.
  all: split; [try exact I; try reflexivity |]; split; [assumption |].
  all: rewrite He; auto.
Qed.

Lemma handleTextOnlyReply_frame t (w : World) :
  wp (handleTextOnlyReply env t)
     (fun c w' =>
        match c with Throw _ => False | _ => True end /\
        memories w' = memories w /\
        (executed w' = executed w \/ executed w' = executed w ++ [Reply])) w.
Proof.
  unfold handleTextOnlyReply, generateTweetContent. unfold_store. wp_run.
  wp_use composeEnrichedState_frame. destruct H as (Hc & Hm & He).
  destruct c; [| exfalso; exact Hc |]; wp_run.
  all: split; [exact I |]; split; [assumption |].
  all: rewrite He; auto.
Qed.

Lemma sublist_stage d (l l' xs : list ActionLabel) a :
  sublist l (List.filter (enabled d) xs) ->
  l' = l \/ (l' = l ++ [a] /\ enabled d a = true) ->
  sublist l' (List.filter (enabled d) (xs ++ [a])).
Proof.
  intros Hl [-> | [-> Ha]]; rewrite List.filter_app.
  - apply sublist_inserts_r. exact Hl.
  - cbn [List.filter]. rewrite Ha. apply sublist_app; [exact Hl | reflexivity].
Qed.

Lemma executeActions_frame t d (w : World) :
  wp (executeActions env t d)
     (fun c w' =>
        goesOnOrReturns c /\ memories w' = memories w /\
        sublist (executed w')
                (List.filter (enabled d) [Like; Retweet; Quote; Reply])) w.
Proof.
  unfold executeActions. unfold_store.
  do 3 wp_step. wp_simpl.
  (* like *)
  apply wp_conseq with
    (Q := fun c w' => isNormal c /\ memories w' = memories w /\
                      sublist (executed w') (List.filter (enabled d) [Like])).
  { wp_run; (split; [exact I |]); (split; [reflexivity |]).
    all: apply (sublist_stage d [] _ [] Like); [apply sublist_nil_l |]; auto. }
  intros c1 w1 (Hn1 & Hm1 & Hs1). destruct c1; try contradiction.
  wp_step.
  (* retweet *)
  apply wp_conseq with
    (Q := fun c w' => isNormal c /\ memories w' = memories w /\
                      sublist (executed w')
                              (List.filter (enabled d) [Like; Retweet])).
  { wp_run; (split; [exact I |]); (split; [assumption |]).
    all: apply (sublist_stage d (executed w1) _ [Like] Retweet);
      [exact Hs1 |]; auto. }
  intros c2 w2 (Hn2 & Hm2 & Hs2). destruct c2; try contradiction.
  wp_step.
  (* quote *)
  apply wp_conseq with
    (Q := fun c w' => goesOnOrReturns c /\ memories w' = memories w /\
                      sublist (executed w')
                              (List.filter (enabled d) [Like; Retweet; Quote])).
  { wp_run.
    - wp_use quoteTweet_frame. destruct H as (Hc & Hm & He).
      assert (Hs : sublist (executed w')
                     (List.filter (enabled d) [Like; Retweet; Quote])).
      { apply (sublist_stage d (executed w2) _ [Like; Retweet] Quote);
          [exact Hs2 |]. destruct He as [He | He]; auto. }
      destruct c; wp_run; (split; [try exact I; try assumption |]);
        (split; [congruence | exact Hs]).
    - split; [exact I |]. split; [assumption |].
      apply (sublist_stage d (executed w2) _ [Like; Retweet] Quote);
        [exact Hs2 |]; auto. }
  intros c3 w3 (Hn3 & Hm3 & Hs3).
  destruct c3; try contradiction.
  - (* reply *)
    wp_run.
    + wp_use handleTextOnlyReply_frame. destruct H as (Hc & Hm & He).
      assert (Hs : sublist (executed w')
                     (List.filter (enabled d) [Like; Retweet; Quote; Reply])).
      { apply (sublist_stage d (executed w3) _ [Like; Retweet; Quote] Reply);
          [exact Hs3 |]. destruct He as [He | He]; auto. }
      destruct c; try contradiction; wp_run;
        (split; [exact I |]); (split; [congruence | exact Hs]).
    + split; [exact I |]. split; [assumption |].
      apply (sublist_stage d (executed w3) _ [Like; Retweet; Quote] Reply);
        [exact Hs3 |]; auto.
  - split; [exact Hn3 |]. split; [assumption |].
    apply (sublist_stage d (executed w3) _ [Like; Retweet; Quote] Reply);
      [exact Hs3 |]; auto.
Qed.

Lemma memKept_refl w : memKept w w.
Proof. intros k m H. exact H. Qed.

Lemma memKept_same w w' : memories w' = memories w -> memKept w w'.
Proof. intros E k m H. rewrite E. exact H. Qed.

Lemma memKept_trans w1 w2 w3 : memKept w1 w2 -> memKept w2 w3 -> memKept w1 w3.
Proof. intros H12 H23 k m H. auto. Qed.

Lemma memKept_insert_new w w' key m :
  memories w !! key = None ->
  memories w' = <[key := m]> (memories w) ->
  memKept w w'.
Proof.
  intros Hnew E k m' H. rewrite E. rewrite lookup_insert_ne; [exact H |].
  intros ->. congruence.
Qed.

Lemma processTweet_frame t results (w : World) :
  wp (processTweet env t results)
     (fun c w' =>
        memKept w w' /\
        match c with
        | Throw _ => False
        | Return r => r = RUndefined
        | Normal results' =>
            results' = results \/
            exists e,
              results' = results ++ [e] /\ tweetId e = tweet_id t /\
              backed env w' e /\ executedWithinDecision e
        end) w.
Proof.
  unfold processTweet. unfold_store. wp_run.
  all: try (split; [apply memKept_same; reflexivity | left; reflexivity]).
  wp_use executeActions_frame. destruct H2 as (Hc & Hm & Hs).
  destruct c; [| split; [apply memKept_same; exact Hm | exact Hc]
              | contradiction].
  wp_run.
  all: try (split; [apply memKept_same; assumption | left; reflexivity]).
  split.
  - eapply memKept_insert_new; [| cbn [memories setMemories]; rewrite Hm;
                                  reflexivity].
    exact Heqo.
  - right. eexists. split; [reflexivity |]. split; [reflexivity |]. split.
    + eexists. split; [apply lookup_insert_eq | reflexivity].
    + exact Hs.
Qed.

Lemma processTweets_frame homeTimeline results (w : World) :
  wp (processTweets env homeTimeline results)
     (fun c w' =>
        memKept w w' /\
        match c with
        | Throw _ => False
        | Return r => r = RUndefined
        | Normal results' =>
            exists new,
              results' = results ++ new /\
              sublist (map tweetId new) (map tweet_id homeTimeline) /\
              Forall (backed env w') new /\
              Forall executedWithinDecision new
        end) w.
Proof.
  revert results w.
  induction homeTimeline as [| tweet rest IH]; intros results w;
    cbn [processTweets].
  - wp_run. split; [apply memKept_refl |]. exists [].
    rewrite app_nil_r. repeat split; constructor.
  - wp_step. wp_use processTweet_frame. destruct H as [Hk Hc].
    destruct c as [results1 | r | e]; [| tauto | contradiction].
    wp_use IH. destruct H as [Hk' Hc'].
    split; [eapply memKept_trans; eassumption |].
    destruct c as [results2 | r | e]; [| exact Hc' | contradiction].
    destruct Hc' as (new & -> & Hsub & Hback & Hwithin).
    destruct Hc as [-> | (e & -> & Hid & Hbe & Hwe)].
    + exists new. split; [reflexivity |]. split; [| tauto].
      cbn [map]. apply sublist_cons. exact Hsub.
    + exists (e :: new). split; [rewrite <- app_assoc; reflexivity |].
      split; [cbn [map]; rewrite Hid; apply sublist_skip; exact Hsub |].
      split; [| constructor; assumption].
      constructor; [| exact Hback].
      destruct Hbe as (m & Hm & Ha). exists m. split; [| exact Ha].
      apply Hk'. exact Hm.
Qed.

End Pipeline.

(** What a run of the pipeline comes to, in one statement. *)
Lemma processTweetActions_frame env (w : World) :
  wp (processTweetActions env)
     (fun c w' =>
        memKept w w' /\
        match c with
        | Normal _ => False
        | Return RNull => isProcessing w = true /\ w' = w
        | Return RUndefined => isProcessing w = false
        | Return (RResults rs) =>
            isProcessing w = false /\
            sublist (map tweetId rs)
                    (map tweet_id
                       (timeline env
                          (FetchTimelineForActions 15
                             :: EnsureUserExists (agentId env)
                             :: DateNow :: history w))) /\
            Forall (backed env w') rs /\
            Forall executedWithinDecision rs
        | Throw e =>
            isProcessing w = false /\
            memories w' = memories w /\ cache w' = cache w /\
            (e = Rejected (EnsureUserExists (agentId env)) \/
             e = Rejected (FetchTimelineForActions 15))
        end) w.
Proof.
  unfold processTweetActions. wp_run.
  - split; [apply memKept_refl | split; reflexivity].
  - split; [apply memKept_same; reflexivity |]. repeat split; auto.
  - split; [apply memKept_same; reflexivity |]. repeat split; auto.
  - wp_use processTweets_frame. destruct H1 as [Hk Hc].
    destruct c as [rs | r | e]; [| | contradiction]; wp_run.
    + split; [exact Hk |]. split; [reflexivity |].
      destruct Hc as (new & -> & Hsub & Hback & Hwithin).
      cbn [app]. repeat split; assumption.
    + split; [exact Hk |]. subst r. reflexivity.
Qed.

(* ===================================================================== *)
(** ** Recording the processed items *)
(* ===================================================================== *)

Lemma wp_and {R A} (m : M R A) (Q Q' : Completion R A -> World -> Prop) w :
  wp m Q w -> wp m Q' w -> wp m (fun c w' => Q c w' /\ Q' c w') w.
Proof. unfold wp. auto. Qed.

Section Recording.

Variable env : Env.

(** The quote returns only after an empty content generation. *)
Lemma quoteTweet_returns t (w : World) :
  wp (quoteTweet env t)
     (fun c _ =>
        match c with
        | Return _ =>
            exists h,
              Json.truthy (contentOfResponse env (modelText env h)) = false
        | _ => True
        end) w.
Proof.
  unfold quoteTweet, generateTweetContent. unfold_store. wp_run.
  wp_use composeEnrichedState_frame. destruct H as (Hc & _).
  destruct c; [| exfalso; exact Hc |]; wp_run; try exact I.
  apply negb_true_iff in Heqb. eauto.
Qed.

(** The actions of an item return only from the quote, after an empty
    content generation. *)
Lemma executeActions_returns t d (w : World) :
  wp (executeActions env t d)
     (fun c _ =>
        match c with
        | Return _ =>
            quote d = true /\
            exists h,
              Json.truthy (contentOfResponse env (modelText env h)) = false
        | _ => True
        end) w.
Proof.
  unfold executeActions. unfold_store.
  do 3 wp_step. wp_simpl.
  (* like *)
  apply wp_conseq with (Q := fun c _ => isNormal c).
  { wp_run; exact I. }
  intros c1 w1 Hn1. destruct c1; try contradiction.
  wp_step.
  (* retweet *)
  apply wp_conseq with (Q := fun c _ => isNormal c).
  { wp_run; exact I. }
  intros c2 w2 Hn2. destruct c2; try contradiction.
  wp_step.
  (* quote *)
  apply wp_conseq with
    (Q := fun c _ =>
            match c with
            | Normal _ => True
            | Return _ =>
                quote d = true /\
                exists h,
                  Json.truthy (contentOfResponse env (modelText env h))
                  = false
            | Throw _ => False
            end).
  { wp_run; try exact I.
    wp_use quoteTweet_returns. destruct c; wp_run; auto. }
  intros c3 w3 H3. destruct c3; [| exact H3 | contradiction].
  (* reply *)
  wp_run; try exact I.
  wp_use handleTextOnlyReply_frame. destruct c; wp_run; exact I.
Qed.

(** No call around the actions rejects. *)
Hypothesis bookkeeping_resolves :
  forall c h, bookkeeping c = true -> rejects env (c :: h) = false.

Lemma memGrows_refl w : memGrows w w.
Proof. intros k H. exact H. Qed.

Lemma memGrows_same w w' : memories w' = memories w -> memGrows w w'.
Proof. intros E k H. rewrite E. exact H. Qed.

Lemma memGrows_trans w1 w2 w3 :
  memGrows w1 w2 -> memGrows w2 w3 -> memGrows w1 w3.
Proof. intros H12 H23 k H. auto. Qed.

Lemma memGrows_insert w w' key m :
  memories w' = <[key := m]> (memories w) -> memGrows w w'.
Proof.
  intros E k H. rewrite E. destruct (decide (key = k)) as [-> | Hne].
  - rewrite lookup_insert_eq. eauto.
  - rewrite lookup_insert_ne by assumption. exact H.
Qed.

(** One item: the store changes under the key of the item at most, and
    only when the item has a decision; an item with a decision has its
    record afterwards; a result entry is for the item and carries a
    decision given for it. *)
Lemma processTweet_records t results (w : World) :
  wp (processTweet env t results)
     (fun c w' =>
        memGrows w w' /\
        (forall k, memories w' !! k = memories w !! k \/
                   k = memoryKey env t /\ everDecided env (tweet_id t)) /\
        match c with
        | Normal results' =>
            (decided env t -> is_Some (memories w' !! memoryKey env t)) /\
            (results' = results \/
             exists e, results' = results ++ [e] /\
                       tweetId e = tweet_id t /\
                       everDecided env (tweet_id t))
        | Return r => r = RUndefined /\ quoteCanBeEmpty env
        | Throw _ => False
        end) w.
Proof.
  unfold processTweet. unfold_store.
  wp_run_with ltac:(rewrite bookkeeping_resolves in * by reflexivity; discriminate).
  - split; [apply memGrows_same; reflexivity |]. split; [auto |].
    split; [eauto | left; reflexivity].
  - eapply wp_conseq;
      [ apply wp_and; [apply executeActions_frame
                      | apply executeActions_returns] |].
    cbv beta. intros c w' [(Hc & Hm & _) Hret].
    destruct c; [| | contradiction].
    + wp_run_with ltac:(rewrite bookkeeping_resolves in * by reflexivity;
                        discriminate).
      cbn [mem_id itemMemory]. split.
      { eapply memGrows_insert. cbn [memories setMemories]. rewrite Hm.
        reflexivity. }
      split.
      { intro k. rewrite Hm.
        destruct (decide (memoryKey env t = k)) as [<- | Hne].
        - right. split; [reflexivity |]. red. eauto.
        - left. apply lookup_insert_ne. exact Hne. }
      split.
      { intros _. rewrite lookup_insert_eq. eauto. }
      right. eexists. split; [reflexivity |]. split; [reflexivity |].
      red. eauto.
    + split; [apply memGrows_same; exact Hm |].
      split; [rewrite Hm; auto |]. split; [exact Hc |].
      destruct Hret as [Hq Hempty]. split; [eauto | exact Hempty].
  - split; [apply memGrows_same; reflexivity |]. split; [auto |]. split.
    + intro Hd. exfalso. eapply Hd. eassumption.
    + left. reflexivity.
Qed.

Lemma processTweets_records homeTimeline results (w : World) :
  wp (processTweets env homeTimeline results)
     (fun c w' =>
        match c with
        | Normal results' =>
            memGrows w w' /\
            (forall t, In t homeTimeline -> decided env t ->
                       is_Some (memories w' !! memoryKey env t)) /\
            (forall k, memories w' !! k = memories w !! k \/
                       exists t, In t homeTimeline /\ k = memoryKey env t /\
                                 everDecided env (tweet_id t)) /\
            exists new,
              results' = results ++ new /\
              forall e, In e new -> everDecided env (tweetId e)
        | Return r => r = RUndefined /\ quoteCanBeEmpty env
        | Throw _ => False
        end) w.
Proof.
  revert results w.
  induction homeTimeline as [| tweet rest IH]; intros results w;
    cbn [processTweets].
  - wp_run. split; [apply memGrows_refl |]. split; [intros t [] |].
    split; [auto |]. exists []. rewrite app_nil_r. split; [reflexivity |].
    intros e [].
  - wp_step. wp_use processTweet_records.
    destruct H as (Hg & Hch & Hc).
    destruct c as [results1 | r | e]; [| exact Hc | contradiction].
    destruct Hc as [Hrec Hres].
    wp_use IH.
    destruct c as [results2 | r | e]; [| exact H | contradiction].
    destruct H as (Hg' & Hrec' & Hch' & new & -> & Hnew).
    split; [eapply memGrows_trans; eassumption |]. split.
    { intros t [<- | Hin] Hd; [apply Hg'; auto | auto]. }
    split.
    { intro k. destruct (Hch' k) as [-> | (t & Hin & Hk & Hd)].
      - destruct (Hch k) as [-> | [Hk Hd]]; [left; reflexivity |].
        right. exists tweet. cbn [In]. auto.
      - right. exists t. cbn [In]. auto. }
    destruct Hres as [-> | (e & -> & Hid & Hd)].
    + exists new. auto.
    + exists (e :: new). split; [rewrite <- app_assoc; reflexivity |].
      intros e' [<- | Hin]; [rewrite Hid; exact Hd | auto].
Qed.

End Recording.

(** An item without a decision is skipped: the results are as before,
    nothing is published or written, and no action is executed. *)
Lemma processTweet_null_decision env t results (w : World) :
  memories w !! memoryKey env t = None ->
  decision env (GenerateTweetActions (tweet_id t) :: ComposeState
                  :: GetMemoryById (memoryKey env t) :: history w) = None ->
  wp (processTweet env t results)
     (fun c w' => c = Normal results /\ nothingRecorded w w' /\
                  executed w' = executed w) w.
Proof.
  intros Hnew Hd. unfold processTweet. unfold_store.
  wp_run_with congruence.
  all: split; [reflexivity |]; split; [nothing_recorded | reflexivity].
Qed.

(** The end-to-end scenario, run. *)
Lemma endToEnd_run :
  let run := processTweetActions Scenario.endToEndEnv Scenario.endToEndWorld in
  fst run = Return (RResults [{| tweetId := "3";
                                 parsedActions := Scenario.likeOnly;
                                 executedActions := [Like] |}]) /\
  size (memories Scenario.endToEndWorld) = 1%nat /\
  size (memories (snd run)) = 2%nat /\
  memories Scenario.endToEndWorld !! "2-agent" = None /\
  memories (snd run) !! "2-agent" = None /\
  is_Some (memories (snd run) !! "3-agent").
Proof. vm_compute. repeat split. eauto. Qed.




(* ===================================================================== *)
(** ** What a run keeps and returns *)
(* ===================================================================== *)

(** A run never changes or removes a record that is already in the memory
    store: it only adds records for items that had none. *)
Theorem processTweetActions_keeps_records env (w : World) k m :
  memories w !! k = Some m ->
  memories (snd (processTweetActions env w)) !! k = Some m.
Proof.
  intro Hk. pose proof (processTweetActions_frame env w) as [Hkept _].
  apply Hkept. exact Hk.
Qed.

Lemma processTweetActions_keeps_records_witness :
  memories (snd (processTweetActions Scenario.endToEndEnv
                   Scenario.endToEndWorld)) !! "1-agent"
  = Some (Scenario.seen Scenario.t1).
Proof.
  apply (processTweetActions_keeps_records Scenario.endToEndEnv
           Scenario.endToEndWorld).
  reflexivity.
Defined.

(** The only errors that leave a run are the rejections of the two calls
    before the loop, [ensureUserExists] and the timeline fetch; then the
    memory store and the cache are as before. Nothing that fails while an
    item is processed escapes: the run returns its results, or
    [undefined] from the bare return. [null] comes from the guard
    alone. *)
Theorem processTweetActions_outcomes env (w : World) :
  match fst (processTweetActions env w) with
  | Normal _ => False
  | Return RNull => isProcessing w = true
  | Return _ => isProcessing w = false
  | Throw e =>
      isProcessing w = false /\
      (e = Rejected (EnsureUserExists (agentId env)) \/
       e = Rejected (FetchTimelineForActions 15)) /\
      memories (snd (processTweetActions env w)) = memories w /\
      cache (snd (processTweetActions env w)) = cache w
  end.
Proof.
  pose proof (processTweetActions_frame env w) as [_ H]. 
  destruct (fst (processTweetActions env w)) as [a | [| rs |] | e];
    tauto.
Qed.

(** The results a run returns follow the timeline: at most one entry per
    fetched item, in the order of the fetch, and each entry has its record
    in the memory store, tagged with the executed actions of the entry. *)
Theorem processTweetActions_results_are_recorded env (w : World) rs :
  fst (processTweetActions env w) = Return (RResults rs) ->
  sublist (map tweetId rs)
          (map tweet_id
             (timeline env
                (FetchTimelineForActions 15 :: EnsureUserExists (agentId env)
                   :: DateNow :: history w))) /\
  Forall (backed env (snd (processTweetActions env w))) rs.
Proof.
  intro Hrs. pose proof (processTweetActions_frame env w) as [_ H].
  rewrite Hrs in H. tauto.
Qed.

Lemma processTweetActions_results_are_recorded_witness :
  let env := Scenario.endToEndEnv in
  let w := Scenario.endToEndWorld in
  let rs := [{| tweetId := "3"; parsedActions := Scenario.likeOnly;
                executedActions := [Like] |}] in
  sublist (map tweetId rs) ["1"; "2"; "3"] /\
  Forall (backed env (snd (processTweetActions env w))) rs.
Proof.
  cbv zeta.
  apply (processTweetActions_results_are_recorded Scenario.endToEndEnv
           Scenario.endToEndWorld).
  vm_compute. reflexivity.
Defined.

(** No action is reported that the decision did not enable: in every
    result entry the executed actions are among the enabled ones, in the
    order like, retweet, quote, reply, each at most once. *)
Theorem processTweetActions_executes_only_enabled env (w : World) rs :
  fst (processTweetActions env w) = Return (RResults rs) ->
  Forall executedWithinDecision rs.
Proof.
  intro Hrs. pose proof (processTweetActions_frame env w) as [_ H].
  rewrite Hrs in H. tauto.
Qed.

Lemma processTweetActions_executes_only_enabled_witness :
  Forall executedWithinDecision
    [{| tweetId := "3"; parsedActions := Scenario.likeRetweet;
        executedActions := [Retweet] |}].
Proof.
  apply (processTweetActions_executes_only_enabled LikeFails.env
           Scenario.emptyWorld).
  vm_compute. reflexivity.
Defined.

(** An item that already has its record is skipped after the lookup: the
    decision engine is not asked, no action is attempted, and the world
    changes by that one call only, whether the lookup resolves or not. *)
Theorem processTweet_skips_processed env t results (w : World) m :
  memories w !! memoryKey env t = Some m ->
  processTweet env t results w
  = (Normal results,
     setHistory (GetMemoryById (memoryKey env t) :: history w) w).
Proof.
  intro Hseen. unfold processTweet, try_catch, getMemoryById, bind, request.
  destruct (rejects env (GetMemoryById (memoryKey env t) :: history w));
    [reflexivity |].
  unfold gets. cbn [memories setHistory]. rewrite Hseen. reflexivity.
Qed.

Lemma processTweet_skips_processed_witness :
  processTweet Scenario.endToEndEnv Scenario.t1 [] Scenario.endToEndWorld
  = (Normal [],
     setHistory [GetMemoryById "1-agent"] Scenario.endToEndWorld).
Proof.
  apply (processTweet_skips_processed Scenario.endToEndEnv Scenario.t1 []
           Scenario.endToEndWorld (Scenario.seen Scenario.t1)).
  reflexivity.
Defined.

(** When the timeline fetch rejects, the run throws that rejection to its
    caller, with the guard cleared and nothing processed. *)
Theorem processTweetActions_fetch_failure env (w : World) :
  isProcessing w = false ->
  let h := EnsureUserExists (agentId env) :: DateNow :: history w in
  rejects env h = false ->
  rejects env (FetchTimelineForActions 15 :: h) = true ->
  processTweetActions env w
  = (Throw (Rejected (FetchTimelineForActions 15)),
     setIsProcessing false
       (setHistory (FetchTimelineForActions 15 :: h)
          (setLastProcessTime (clock env (DateNow :: history w)) w))).
Proof.
  intros Hfree h Hensure Hfetch. subst h.
  unfold processTweetActions, bind at 1. unfold gets at 1. rewrite Hfree.
  unfold try_finally, try_catch, bind, modify, now, request.
  cbn [history setHistory setLastProcessTime setIsProcessing].
  rewrite Hensure. cbn [history setHistory]. rewrite Hfetch.
  unfold throw. destruct w. reflexivity.
Qed.

(** After a run that passed the guard, the next run passes it too,
    however the first one ended: it is never answered with [null]. *)
Theorem processTweetActions_next_run_passes_guard env env' (w : World) :
  isProcessing w = false ->
  fst (processTweetActions env' (snd (processTweetActions env w)))
  <> Return RNull.
Proof.
  intros Hfree Hnull.
  assert (Hcleared : isProcessing (snd (processTweetActions env w)) = false).
  { unfold processTweetActions, bind at 1. unfold gets at 1. rewrite Hfree.
    unfold try_finally. destruct (try_catch _ _ w) as [c w']. reflexivity. }
  pose proof (processTweetActions_frame env'
                (snd (processTweetActions env w))) as Hout.
  unfold wp in Hout. rewrite Hnull in Hout.
  destruct Hout as [_ [Hbusy _]]. congruence.
Qed.

Lemma processTweetActions_fetch_failure_witness :
  processTweetActions FetchFails.env Scenario.emptyWorld
  = (Throw (Rejected (FetchTimelineForActions 15)),
     setIsProcessing false
       (setHistory [FetchTimelineForActions 15; EnsureUserExists "agent";
                    DateNow]
          (setLastProcessTime 1000 Scenario.emptyWorld))).
Proof.
  apply (processTweetActions_fetch_failure FetchFails.env
           Scenario.emptyWorld); reflexivity.
Defined.

Lemma processTweetActions_next_run_passes_guard_witness :
  fst (processTweetActions Scenario.endToEndEnv
         (snd (processTweetActions FetchFails.env Scenario.emptyWorld)))
  <> Return RNull.
Proof.
  apply processTweetActions_next_run_passes_guard. reflexivity.
Defined.

Section Quiet.

Variable env : Env.

Lemma describeImages_quiet {R} photos (w0 w : World) :
  nothingRecorded w0 w ->
  wp (describeImages (R:=R) env photos)
     (fun c w' => notReturn c /\ nothingRecorded w0 w' /\
                  executed w' = executed w) w.
Proof.
  revert w. induction photos as [| url rest IH]; intros w Hq;
    cbn [describeImages].
  - wp_run. repeat split; apply Hq.
  - wp_run.
    + split; [exact I |]. split; [| reflexivity].
      apply nothingRecorded_call; [reflexivity | exact Hq].
    + wp_use IH.
      { apply nothingRecorded_call; [reflexivity | exact Hq]. }
      destruct c; tauto.
Qed.

Lemma composeEnrichedState_quiet {R} t (w0 w : World) :
  nothingRecorded w0 w ->
  wp (composeEnrichedState (R:=R) env t)
     (fun c w' => notReturn c /\ nothingRecorded w0 w' /\
                  executed w' = executed w) w.
Proof.
  intro Hq. unfold composeEnrichedState. wp_run.
  - split; [exact I |]. split; [| reflexivity].
    apply nothingRecorded_call; [reflexivity | exact Hq].
  - wp_use describeImages_quiet.
    { apply nothingRecorded_call; [reflexivity | exact Hq]. }
    destruct H0 as (Hc & Hn & He).
    destruct c; [| exfalso; exact Hc |]; wp_run.
    all: split; [exact I |]; split; [| assumption].
    all: repeat (apply nothingRecorded_call; [reflexivity |]); exact Hn.
Qed.

End Quiet.



(* ===================================================================== *)
(** ** Image conversion *)
(* ===================================================================== *)

Lemma startsWith_app (p r : jsstring) : Js.startsWith p (p ++ r) = Some r.
Proof.
  induction p as [| a p IH]; cbn [Js.startsWith app]; [reflexivity |].
  rewrite N.eqb_refl. exact IH.
Qed.

Lemma startsWith_Some (p s r : jsstring) :
  Js.startsWith p s = Some r -> s = p ++ r.
Proof.
  revert s. induction p as [| a p IH]; intros s H; cbn [Js.startsWith] in H.
  - injection H as ->. reflexivity.
  - destruct s as [| c s]; [discriminate |].
    destruct (N.eqb_spec a c) as [-> |]; [| discriminate].
    cbn [app]. f_equal. apply IH. exact H.
Qed.

Lemma spanMime_app (m r : jsstring) :
  forallb Media.isMimeUnit m = true ->
  match r with [] => True | d :: _ => Media.isMimeUnit d = false end ->
  Media.spanMime (m ++ r) = (m, r).
Proof.
  intros Hm Hr. induction m as [| c m IH]; cbn [app].
  - destruct r as [| d r]; cbn [Media.spanMime]; [reflexivity |].
    rewrite Hr. reflexivity.
  - cbn [forallb] in Hm. apply andb_prop in Hm as [Hc Hm].
    cbn [Media.spanMime]. rewrite Hc, (IH Hm). reflexivity.
Qed.

Lemma spanMime_spec (s m r : jsstring) :
  Media.spanMime s = (m, r) ->
  s = m ++ r /\ forallb Media.isMimeUnit m = true.
Proof.
  revert m r. induction s as [| c s IH]; intros m r H; cbn [Media.spanMime] in H.
  - injection H as <- <-. split; reflexivity.
  - destruct (Media.isMimeUnit c) eqn:Hc.
    + destruct (Media.spanMime s) as [m' r'] eqn:Hs.
      injection H as <- <-. destruct (IH _ _ eq_refl) as [-> Hm].
      split; [reflexivity |]. cbn [forallb]. rewrite Hc. exact Hm.
    + injection H as <- <-. split; reflexivity.
Qed.

(** The scan agrees with the pattern read as a grammar: the input matches
    with the groups [mime] and [payload] exactly when it is the prefix, an
    accepted media type, the base64 marker and an accepted payload. *)
Lemma matchDataUrl_iff (input mime payload : jsstring) :
  Media.matchDataUrl input = Some (mime, payload) <->
  input = str "data:" ++ mime ++ str ";base64," ++ payload /\
  isMediaType mime = true /\ isPayload payload = true.
Proof.
  unfold Media.matchDataUrl. split.
  - intro H.
    destruct (Js.startsWith (str "data:") input) as [r |] eqn:H1;
      [| discriminate].
    apply startsWith_Some in H1.
    destruct (Media.spanMime r) as [m r1] eqn:H2.
    apply spanMime_spec in H2 as [-> Hm].
    destruct m as [| c m]; [discriminate |].
    destruct (Js.startsWith (str ";base64,") r1) as [p |] eqn:H3;
      [| discriminate].
    apply startsWith_Some in H3.
    destruct p as [| x p]; [discriminate |].
    destruct (forallb _ (x :: p)) eqn:H4; [| discriminate].
    injection H as <- <-. subst. repeat split; assumption.
  - intros (-> & Hm & Hp).
    rewrite startsWith_app.
    destruct mime as [| c m]; [discriminate |].
    destruct payload as [| x p]; [discriminate |].
    unfold isMediaType in Hm. unfold isPayload in Hp.
    rewrite (spanMime_app (c :: m)); [| exact Hm | reflexivity].
    rewrite startsWith_app, Hp. reflexivity.
Qed.

(** [imageToBuffer] decodes a payload exactly for the inputs that are the
    prefix, a media type of letters, hyphens, pluses and slashes, the
    base64 marker and that payload, which is not empty and has no line
    terminator. *)
Theorem imageToBuffer_decodes_iff (input payload : jsstring) :
  Media.imageToBuffer input = Some (Media.FromBase64 payload) <->
  exists mime,
    input = str "data:" ++ mime ++ str ";base64," ++ payload /\
    isMediaType mime = true /\ isPayload payload = true.
Proof.
  unfold Media.imageToBuffer. split.
  - intro H.
    destruct (Js.startsWith (str "data:") input); [| discriminate].
    destruct (Media.matchDataUrl input) as [[mime p] |] eqn:Hm;
      [| discriminate].
    injection H as ->. exists mime. apply matchDataUrl_iff. exact Hm.
  - intros (mime & Hin & Hm & Hp).
    assert (H : Media.matchDataUrl input = Some (mime, payload))
      by (apply matchDataUrl_iff; auto).
    rewrite H. subst input. rewrite startsWith_app. reflexivity.
Qed.

(** A data URL whose media type has a character outside the class, a
    digit for one, is refused as an invalid data URL. *)
Theorem imageToBuffer_refuses_media_type (m rest : jsstring) (d : N) :
  forallb Media.isMimeUnit m = true ->
  Media.isMimeUnit d = false ->
  d <> 59%N ->
  Media.imageToBuffer (str "data:" ++ m ++ d :: rest) = None.
Proof.
  intros Hm Hd Hsemi. unfold Media.imageToBuffer, Media.matchDataUrl.
  rewrite startsWith_app.
  rewrite (spanMime_app m (d :: rest) Hm Hd).
  destruct m as [| c m]; [reflexivity |].
  change (str ";base64,") with (59%N :: str "base64,").
  cbn [Js.startsWith].
  destruct (N.eqb_spec 59 d) as [E |]; [| reflexivity].
  exfalso. apply Hsemi. symmetry. exact E.
Qed.

Lemma imageToBuffer_refuses_media_type_witness :
  Media.imageToBuffer (str "data:video/mp4;base64,AAAA") = None.
Proof.
  apply (imageToBuffer_refuses_media_type (str "video/mp") (str ";base64,AAAA")
           52%N).
  - reflexivity.
  - reflexivity.
  - discriminate.
Defined.

(** A string that is not a data URL is a file path for [imageToBuffer],
    but among the images of [postTweetWithImages] it is an invalid image:
    the call throws, nothing is sent and nothing changes. *)
Theorem postTweetWithImages_refuses_file_path env text images replyTo
    (s : jsstring) (w : World) :
  In (Media.IsString s) images ->
  Js.startsWith (str "data:") s = None ->
  Media.imageToBuffer s = Some (Media.FromFile s) /\
  Media.postTweetWithImages env text images replyTo w
  = (Media.ImagesRejected, w).
Proof.
  intros Hin Hs. split.
  - unfold Media.imageToBuffer. rewrite Hs. reflexivity.
  - unfold Media.postTweetWithImages.
    destruct (forallb _ images) eqn:Hall; [| reflexivity].
    exfalso. rewrite forallb_forall in Hall.
    specialize (Hall _ Hin). cbn [Media.toImageBuffer] in Hall.
    rewrite Hs in Hall. discriminate.
Qed.

Lemma postTweetWithImages_refuses_file_path_witness :
  Media.imageToBuffer (str "cat.png") = Some (Media.FromFile (str "cat.png")) /\
  Media.postTweetWithImages Scenario.endToEndEnv (str "hello")
    [Media.IsBuffer; Media.IsString (str "cat.png")] None Scenario.emptyWorld
  = (Media.ImagesRejected, Scenario.emptyWorld).
Proof.
  apply (postTweetWithImages_refuses_file_path Scenario.endToEndEnv
           (str "hello") [Media.IsBuffer; Media.IsString (str "cat.png")]
           None (str "cat.png") Scenario.emptyWorld).
  - right. left. reflexivity.
  - reflexivity.
Defined.

(* ===================================================================== *)
(** ** Video generation *)
(* ===================================================================== *)

Lemma poll_pending (before rest : list (Video.Fetched Video.Polled)) :
  forallb pendingPoll before = true ->
  Video.poll (before ++ rest) = Video.poll rest.
Proof.
  induction before as [| q before IH]; intro H; cbn [app]; [reflexivity |].
  cbn [forallb] in H. apply andb_prop in H as [Hq H].
  destruct q as [p | message]; [| discriminate].
  cbn [pendingPoll] in Hq.
  apply andb_prop in Hq as [Hq Hf]. apply andb_prop in Hq as [Hok Hc].
  apply negb_true_iff in Hc, Hf.
  cbn [Video.poll]. rewrite Hok, Hc, Hf. cbn [negb]. exact (IH H).
Qed.

Lemma poll_success_iff (polls : list (Video.Fetched Video.Polled)) url :
  Video.poll polls = Some (Video.Success url) <->
  exists before p after,
    polls = before ++ Video.Responded p :: after /\
    forallb pendingPoll before = true /\
    Video.polled_ok p = true /\
    Video.isState "completed" (Video.polled_state p) = true /\
    Video.polled_video p = Some url.
Proof.
  split.
  - induction polls as [| q polls IH]; cbn [Video.poll]; [discriminate |].
    destruct q as [p | message]; [| discriminate].
    destruct (Video.polled_ok p) eqn:Hok; cbn [negb]; [| discriminate].
    destruct (Video.isState "completed" (Video.polled_state p)) eqn:Hc.
    + destruct (Video.polled_video p) as [u |] eqn:Hv; [| discriminate].
      intro H. injection H as ->.
      exists [], p, polls. repeat split; assumption.
    + destruct (Video.isState "failed" (Video.polled_state p)) eqn:Hf;
        [discriminate |].
      intro H. destruct (IH H) as (before & p' & after & -> & Hb & Hrest).
      exists (Video.Responded p :: before), p', after.
      split; [reflexivity |]. split; [| exact Hrest].
      cbn [forallb pendingPoll]. rewrite Hok, Hc, Hf, Hb. reflexivity.
  - intros (before & p & after & -> & Hb & Hok & Hc & Hv).
    rewrite (poll_pending _ _ Hb). cbn [Video.poll].
    rewrite Hok, Hc, Hv. reflexivity.
Qed.

(** [generateVideo] reports a video exactly when the creation request is
    accepted with a status that is neither completed nor failed, and the
    first status answer that is not pending is an accepted one in state
    completed that carries the video URL. A creation answer that is
    already completed never gives a video. *)
Theorem generateVideo_success_iff created polls url :
  Video.generateVideo created polls = Some (Video.Success url) <->
  exists r before p after,
    created = Video.Responded r /\
    Video.created_ok r = true /\
    Video.isState "completed" (Video.created_status r) = false /\
    Video.isState "failed" (Video.created_status r) = false /\
    polls = before ++ Video.Responded p :: after /\
    forallb pendingPoll before = true /\
    Video.polled_ok p = true /\
    Video.isState "completed" (Video.polled_state p) = true /\
    Video.polled_video p = Some url.
Proof.
  unfold Video.generateVideo. split.
  - destruct created as [r | message]; [| discriminate].
    destruct (Video.created_ok r) eqn:Hok; cbn [negb]; [| discriminate].
    destruct (Video.isState "completed" (Video.created_status r)) eqn:Hc;
      [discriminate |].
    destruct (Video.isState "failed" (Video.created_status r)) eqn:Hf;
      [discriminate |].
    intro H. apply poll_success_iff in H
      as (before & p & after & Hp & Hrest).
    exists r, before, p, after. repeat split; try assumption; apply Hrest.
  - intros (r & before & p & after & -> & Hok & Hc & Hf & Hrest).
    rewrite Hok, Hc, Hf. cbn [negb]. apply poll_success_iff.
    exists before, p, after. exact Hrest.
Qed.

(** [generateVideo] never throws and stops polling at the first status
    answer that is not pending: once there is one, it resolves to a
    result, and the answers after it are not looked at. *)
Theorem generateVideo_resolves created before q after :
  forallb pendingPoll before = true ->
  pendingPoll q = false ->
  exists result,
    Video.generateVideo created (before ++ q :: after) = Some result /\
    Video.generateVideo created (before ++ [q]) = Some result.
Proof.
  intros Hb Hq. unfold Video.generateVideo.
  assert (Hpoll : forall rest, exists result,
             Video.poll (q :: rest) = Some result /\
             Video.poll [q] = Some result).
  { intro rest. cbn [Video.poll]. destruct q as [p | message].
    - cbn [pendingPoll] in Hq.
      destruct (Video.polled_ok p); cbn [negb andb] in *;
        [| eexists; split; reflexivity].
      destruct (Video.isState "completed" (Video.polled_state p)).
      + destruct (Video.polled_video p); eexists; split; reflexivity.
      + destruct (Video.isState "failed" (Video.polled_state p));
          [eexists; split; reflexivity | discriminate].
    - eexists; split; reflexivity. }
  destruct created as [r | message]; [| eexists; split; reflexivity].
  destruct (negb (Video.created_ok r)); [eexists; split; reflexivity |].
  destruct (Video.isState "completed" (Video.created_status r));
    [eexists; split; reflexivity |].
  destruct (Video.isState "failed" (Video.created_status r));
    [eexists; split; reflexivity |].
  rewrite !(poll_pending _ _ Hb). apply Hpoll.
Qed.

Lemma generateVideo_resolves_witness :
  let created := Video.Responded
                   {| Video.created_ok := true;
                      Video.created_statusText := "OK";
                      Video.created_errorText := "";
                      Video.created_status := Some "queued" |} in
  let dreaming := Video.Responded
                    {| Video.polled_ok := true;
                       Video.polled_errorText := "";
                       Video.polled_state := Some "dreaming";
                       Video.polled_video := None |} in
  let done := Video.Responded
                {| Video.polled_ok := true;
                   Video.polled_errorText := "";
                   Video.polled_state := Some "completed";
                   Video.polled_video := Some "https://cdn/v.mp4" |} in
  exists result,
    Video.generateVideo created ([dreaming] ++ done :: [Video.Failed "late"])
    = Some result /\
    Video.generateVideo created ([dreaming] ++ [done]) = Some result.
Proof.
  intros created dreaming done.
  apply (generateVideo_resolves created [dreaming] done [Video.Failed "late"]);
    reflexivity.
Defined.

(* ===================================================================== *)
(** ** The image path with the plugin *)
(* ===================================================================== *)

Lemma postWithImage_falls_back_witness :
  imageActionHandler WithImagePlugin.env = true /\
  wp (postWithImage WithImagePlugin.env (str "hello") (str "hello")
        (str "hello") "room")
     (fun c w' =>
        In (SendTweet (JString (str "hello")) None false) (history w')
        \/ isNormal c /\
           In (SendTweet (JString (str "hello")) None true) (history w'))
     Scenario.emptyWorld.
Proof.
  split; [reflexivity |].
  apply (postWithImage_falls_back WithImagePlugin.env (str "hello")
           (str "hello") (str "hello") "room" Scenario.emptyWorld).
  reflexivity.
Defined.
